(** * Ride dispatch back end: fares, verification codes, ride life cycle, routing

    A shallow embedding of the dispatch core of the back end:
    - [Fare]      the two fare computations of [services/ride.service.js]
                  ([getFare] and the one inside [createRide]);
    - [Otp]       [generateOTP] of [utils/helpers.js], [getOtp] of
                  [services/ride.service.js] and the [otp] validator of
                  [models/ride.model.js];
    - [Dispatch]  the ride and captain collections, the service operations
                  [confirmRide], [startRide], [endRide], [cancelRide], the
                  realtime ['ride:status'] handler and socket connect and
                  disconnect of [socket.js], and the HTTP [updateRideStatus]
                  handler of [controllers/ride.controller.js];
    - [Maps]      [getDistanceTime], [calculateDistance] and
                  [getRouteDetails] of [services/maps.service.js].

    Definitions come first, one module per source area; the statements about
    them follow in the second half of the file. *)

From Stdlib Require Import ZArith QArith Qround String Ascii List Bool Lia Lra Reals.
From stdpp Require Import gmap strings.
From Stdlib Require Sorted.

(* ===================================================================== *)
(** * Part I: definitions                                                 *)
(* ===================================================================== *)

(** ** Fare computation ([services/ride.service.js])

    JavaScript numbers are idealised as exact rationals.  Every value a fare
    computation can receive (a JSON number of the routing provider, or a
    double computed by the fallback) is a rational; what the idealisation
    leaves out is the rounding error of the double arithmetic before
    [Math.round].  From [Math.round] on, all values are small integers, on
    which double arithmetic is exact, and are kept in [Z]. *)
Module Fare.
Local Open Scope Q_scope.

Inductive VehicleType : Set := auto | car | moto.

Definition baseFare (t : VehicleType) : Z :=
  match t with auto => 30 | car => 50 | moto => 20 end%Z.

Definition perKmRate (t : VehicleType) : Q :=
  match t with auto => 10 | car => 15 | moto => 8 end.

Definition perMinuteRate (t : VehicleType) : Q :=
  match t with auto => 2 | car => 3 | moto => 3 # 2 end.

(** [Math.round]: the nearest integer, ties towards plus infinity. *)
Definition Math_round (x : Q) : Z := Qfloor (x + (1 # 2)).

(** The surge table, written twice in the source with the same tests:
    [(h >= 7 && h <= 9) || (h >= 17 && h <= 19)] gives 1.5,
    otherwise [h >= 22 || h <= 5] gives 1.3, otherwise 1.0. *)
Definition surge (currentHour : Z) : Q :=
  if ((7 <=? currentHour) && (currentHour <=? 9)
      || (17 <=? currentHour) && (currentHour <=? 19))%Z then 3 # 2
  else if ((22 <=? currentHour) || (currentHour <=? 5))%Z then 13 # 10
  else 1.

(** [getFare], lines 75-85: the amount of one class before the limits.
    [distance] is [distanceTime.distance.value] (metres) and [duration] is
    [distanceTime.duration.value] (seconds). *)
Definition getFare_formula (t : VehicleType) (distance duration : Q)
    (surgeMultiplier : Q) : Z :=
  Math_round ((inject_Z (baseFare t)
               + (distance / 1000) * perKmRate t
               + (duration / 60) * perMinuteRate t) * surgeMultiplier).

(** [getFare], lines 88-92: the body of the [forEach] over the classes. *)
Definition getFare_limits (t : VehicleType) (fare : Z) : Z :=
  let fare := Z.max fare (baseFare t * 2) in
  let fare := Z.min fare (baseFare t * 10) in
  (Math_round (inject_Z fare / 10) * 10)%Z.

Record FareResult : Type := mkFareResult {
  data : VehicleType -> Z;
  distance : Q;
  duration : Q;
  surgeMultiplier : Q
}.

(** [getFare] once [getDistanceTime] has answered with [distance] and
    [duration]; [currentHour] is [new Date().getHours()]. *)
Definition getFare (distance duration : Q) (currentHour : Z) : FareResult :=
  let surgeMultiplier := surge currentHour in
  {| data := fun t =>
       getFare_limits t (getFare_formula t distance duration surgeMultiplier);
     distance := distance;
     duration := duration;
     surgeMultiplier := surgeMultiplier |}.

(** [Math.max] on rationals. *)
Definition Math_max (x y : Q) : Q := if Qle_bool x y then y else x.

(** [createRide], lines 197-206: the amount before the limits.  [distance]
    and [duration] are [routeDetails.distance] and [routeDetails.duration]. *)
Definition createRide_formula (vehicleType : VehicleType)
    (distance duration : Q) (surgeMultiplier : Q) : Z :=
  let distanceInKm := distance / 1000 in
  let durationInMinutes := duration / 60 in
  let effectiveDistance := Math_max distanceInKm 1 in
  let effectiveDuration := Math_max durationInMinutes 5 in
  Math_round ((inject_Z (baseFare vehicleType)
               + effectiveDistance * perKmRate vehicleType
               + effectiveDuration * perMinuteRate vehicleType)
              * surgeMultiplier).

(** [createRide], lines 208-211: [finalFare], stored as [fare.amount]. *)
Definition createRide_finalFare (vehicleType : VehicleType)
    (distance duration : Q) (currentHour : Z) : Z :=
  let fare := createRide_formula vehicleType distance duration (surge currentHour) in
  let minFare := (baseFare vehicleType * 2)%Z in
  let maxFare := (baseFare vehicleType * 10)%Z in
  Z.min (Z.max fare minFare) maxFare.

(** The computation as the specification words it: distance and duration
    floored at 1 km and 5 min, then the formula, the clamp to
    [2 * base, 10 * base] and the rounding to the nearest 10.  Used only to
    compare the two source computations with. *)
Definition spec_quote (t : VehicleType) (distance duration : Q)
    (currentHour : Z) : Z :=
  let km := Math_max (distance / 1000) 1 in
  let min := Math_max (duration / 60) 5 in
  let raw := Math_round ((inject_Z (baseFare t) + km * perKmRate t
                          + min * perMinuteRate t) * surge currentHour) in
  let clamped := Z.min (Z.max raw (baseFare t * 2)) (baseFare t * 10) in
  (Math_round (inject_Z clamped / 10) * 10)%Z.

End Fare.

(** ** Verification codes ([utils/helpers.js], [services/ride.service.js],
       [models/ride.model.js]) *)
Module Otp.
Local Open Scope string_scope.
Local Open Scope Z_scope.

(** [Math.pow(10, e)] for an integer exponent; [None] when the result is not
    an integer (negative exponent), which [crypto.randomInt] refuses. *)
Definition Math_pow10 (e : Z) : option Z :=
  if e <? 0 then None else Some (10 ^ e).

Definition isSafeInteger (n : Z) : bool :=
  (- (2 ^ 53 - 1) <=? n) && (n <=? 2 ^ 53 - 1).

(** [crypto.randomInt(min, max)]: an integer [n] with [min <= n < max], or an
    exception ([None]) when a bound is no safe integer, the range is empty
    or it is wider than 2^48.  The entropy consumed from the system
    generator is the argument [draw]; every value of the range is the
    result for some [draw]. *)
Definition crypto_randomInt (draw : N) (min max : Z) : option Z :=
  if isSafeInteger min && isSafeInteger max && (min <? max)
     && (max - min <? 2 ^ 48)
  then Some (min + Z.of_N draw mod (max - min))
  else None.

Definition digitChar (d : Z) : ascii := ascii_of_N (48 + Z.to_N d).

Fixpoint digits (fuel : nat) (n : Z) (acc : string) : string :=
  match fuel with
  | O => acc
  | S fuel =>
      let acc := String (digitChar (n mod 10)) acc in
      if n / 10 =? 0 then acc else digits fuel (n / 10) acc
  end.

(** [Number.prototype.toString] on an integer: decimal digits, no leading
    zero, a minus sign for negative values. *)
Definition toString (n : Z) : string :=
  if n <? 0 then String "-" (digits (S (Z.to_nat (Z.log2 (- n)))) (- n) "")
  else digits (S (Z.to_nat (Z.log2 n))) n "".

Inductive result (A : Type) : Type :=
  | Ok (a : A)
  | ApiError (statusCode : Z) (message : string).
Arguments Ok {A} a.
Arguments ApiError {A} statusCode message.

(** [generateOTP] of [utils/helpers.js]. *)
Definition generateOTP (draw : N) (length : Z) : result string :=
  match Math_pow10 (length - 1), Math_pow10 length with
  | Some min, Some p =>
      let max := p - 1 in
      match crypto_randomInt draw min (max + 1) with
      | Some otp => Ok (toString otp)
      | None => ApiError 500 "Error generating OTP"
      end
  | _, _ => ApiError 500 "Error generating OTP"
  end.

(** [getOtp] of [services/ride.service.js]; [None] is the exception of
    [crypto.randomInt], which this function does not catch. *)
Definition getOtp (draw : N) (num : Z) : option string :=
  match Math_pow10 (num - 1), Math_pow10 num with
  | Some lo, Some hi =>
      match crypto_randomInt draw lo hi with
      | Some otp => Some (toString otp)
      | None => None
      end
  | _, _ => None
  end.

Definition isDigit (c : ascii) : bool :=
  let n := N_of_ascii c in ((48 <=? n) && (n <=? 57))%N.

Fixpoint allDigits (s : string) : bool :=
  match s with
  | EmptyString => true
  | String c s => isDigit c && allDigits s
  end.

(** The validator of [rideSchema.otp]: [/^\d{6}$/.test(v)]. *)
Definition otp_validator (v : string) : bool :=
  (String.length v =? 6)%nat && allDigits v.

(** The number a string of decimal digits denotes, read from the left. *)
Definition digitValue (c : ascii) : Z := Z.of_N (N_of_ascii c) - 48.

Fixpoint decimal_from (acc : Z) (s : string) : Z :=
  match s with
  | EmptyString => acc
  | String c s => decimal_from (10 * acc + digitValue c) s
  end.

Definition decimal (s : string) : Z := decimal_from 0 s.

End Otp.

(** ** Ride life cycle ([services/ride.service.js], [socket.js],
       [controllers/ride.controller.js])

    The two collections are finite maps from document ids to documents.  A
    handler is a computation over them that either returns or throws;
    writes made before a throw persist, as they do in the database.  The
    clock ([new Date()], [Date.now()]) is the argument [now] of a handler,
    one instant for all it does.
    The notifications sent after a successful write ([io.to(..).emit]) do
    not touch either collection and are left out. *)
Module Dispatch.
Local Open Scope string_scope.
Local Open Scope Z_scope.

(** [RIDE_STATUS], the [enum] of [rideSchema.status]. *)
Inductive Status : Set :=
  | REQUESTED | ACCEPTED | ON_THE_WAY | IN_PROGRESS | COMPLETED | CANCELLED.

Definition status_name (s : Status) : string :=
  match s with
  | REQUESTED => "requested"
  | ACCEPTED => "accepted"
  | ON_THE_WAY => "on-the-way"
  | IN_PROGRESS => "in-progress"
  | COMPLETED => "completed"
  | CANCELLED => "cancelled"
  end.

(** The status a request names, if it is one of the schema's. *)
Definition status_of_name (name : string) : option Status :=
  if String.eqb name "requested" then Some REQUESTED
  else if String.eqb name "accepted" then Some ACCEPTED
  else if String.eqb name "on-the-way" then Some ON_THE_WAY
  else if String.eqb name "in-progress" then Some IN_PROGRESS
  else if String.eqb name "completed" then Some COMPLETED
  else if String.eqb name "cancelled" then Some CANCELLED
  else None.

Definition Status_eqb (a b : Status) : bool :=
  match a, b with
  | REQUESTED, REQUESTED | ACCEPTED, ACCEPTED | ON_THE_WAY, ON_THE_WAY
  | IN_PROGRESS, IN_PROGRESS | COMPLETED, COMPLETED | CANCELLED, CANCELLED => true
  | _, _ => false
  end.

(** A JavaScript value as far as the handlers inspect one: its truthiness
    and its strict equality with a string. *)
Inductive jsval : Type :=
  | undefined
  | null
  | boolean (b : bool)
  | number (z : Z)
  | str (s : string).

Definition truthy (v : jsval) : bool :=
  match v with
  | undefined | null => false
  | boolean b => b
  | number z => negb (z =? 0)
  | str s => negb (String.eqb s "")
  end.

(** [s !== v] for a string [s]. *)
Definition strict_neq (s : string) (v : jsval) : bool :=
  match v with
  | str t => negb (String.eqb s t)
  | _ => true
  end.

(** A ride document, as far as the dispatch code reads and writes it.
    [paymentMethod] and [tip], which [endRide] assigns on the loaded
    document, are no paths of [rideSchema] and are not stored. *)
Record Ride : Type := mkRide {
  user : N;
  captain : option N;
  status : Status;
  otp : string;
  estimatedArrivalTime : option Z;
  actualArrivalTime : option Z;
  actualEndTime : option Z;
  cancellationReason : option string
}.

(** A captain document, as far as the dispatch code writes it. *)
Record CaptainDoc : Type := mkCaptainDoc {
  socketId : option string;
  isAvailable : bool;
  lastSeen : Z
}.

Record World : Type := mkWorld {
  rides : gmap N Ride;
  captains : gmap N CaptainDoc
}.

Definition with_status (r : Ride) (s : Status) : Ride :=
  mkRide (user r) (captain r) s (otp r) (estimatedArrivalTime r)
         (actualArrivalTime r) (actualEndTime r) (cancellationReason r).
Definition with_captain (r : Ride) (c : option N) : Ride :=
  mkRide (user r) c (status r) (otp r) (estimatedArrivalTime r)
         (actualArrivalTime r) (actualEndTime r) (cancellationReason r).
Definition with_estimatedArrivalTime (r : Ride) (t : option Z) : Ride :=
  mkRide (user r) (captain r) (status r) (otp r) t
         (actualArrivalTime r) (actualEndTime r) (cancellationReason r).
Definition with_actualArrivalTime (r : Ride) (t : option Z) : Ride :=
  mkRide (user r) (captain r) (status r) (otp r) (estimatedArrivalTime r)
         t (actualEndTime r) (cancellationReason r).
Definition with_actualEndTime (r : Ride) (t : option Z) : Ride :=
  mkRide (user r) (captain r) (status r) (otp r) (estimatedArrivalTime r)
         (actualArrivalTime r) t (cancellationReason r).
Definition with_cancellationReason (r : Ride) (reason : option string) : Ride :=
  mkRide (user r) (captain r) (status r) (otp r) (estimatedArrivalTime r)
         (actualArrivalTime r) (actualEndTime r) reason.

(** *** Computations over the collections *)

Definition M (E A : Type) : Type := World -> (E + A) * World.

Definition ret {E A} (a : A) : M E A := fun w => (inr a, w).
Definition throw {E A} (e : E) : M E A := fun w => (inl e, w).
Definition bind {E A B} (m : M E A) (k : A -> M E B) : M E B :=
  fun w => match m w with
           | (inr a, w') => k a w'
           | (inl e, w') => (inl e, w')
           end.
(** [try { m } catch (error) { throw h(error) }] *)
Definition rethrow {E A} (h : E -> E) (m : M E A) : M E A :=
  fun w => match m w with
           | (inl e, w') => (inl (h e), w')
           | r => r
           end.

Declare Scope dispatch_scope.
Delimit Scope dispatch_scope with dispatch.
Notation "x <- c ;; k" := (bind c (fun x => k))
  (at level 100, c at next level, right associativity) : dispatch_scope.
Notation "c ;;; k" := (bind c (fun _ => k))
  (at level 100, right associativity) : dispatch_scope.
Local Open Scope dispatch_scope.

(** [rideModel.findById(rideId)] *)
Definition rideModel_findById {E} (rideId : N) : M E (option Ride) :=
  fun w => (inr (rides w !! rideId), w).

(** [rideModel.findOne({ _id: rideId, ...cond })] *)
Definition rideModel_findOne {E} (rideId : N) (cond : Ride -> bool)
    : M E (option Ride) :=
  fun w => (inr (match rides w !! rideId with
                 | Some r => if cond r then Some r else None
                 | None => None
                 end), w).

(** The validator of [rideSchema.estimatedArrivalTime],
    [function(v) { return v > new Date(); }].  A document without the path
    is not tested. *)
Definition estimate_in_future (now : Z) (ride : Ride) : bool :=
  match estimatedArrivalTime ride with
  | Some v => now <? v
  | None => true
  end.

(** The message of the validation error of [ride.save()]. *)
Definition estimate_not_in_future : string :=
  "Ride validation failed: estimatedArrivalTime: Estimated arrival time must be in the future".

(** [ride.save()] of the document loaded under [rideId], at clock [now].
    Before it writes, [save] validates the document: the paths the handler
    has set and the paths that were loaded with it.  [estimatedArrivalTime]
    is the one path whose validator depends on the clock, so a ride that
    passed it when the estimate was stored fails it once the estimate is
    past; then [save] throws and nothing is written.  The other validators
    of the schema test paths that no handler writes ([otp], [user], the
    addresses, the fare), on values that passed them when the ride was
    created, and [status], whose [enum] is the concern of [assign_status]. *)
Definition ride_save {E} (validation_error : E) (now : Z) (rideId : N)
    (ride : Ride) : M E unit :=
  fun w => if estimate_in_future now ride
           then (inr tt, mkWorld (<[rideId := ride]> (rides w)) (captains w))
           else (inl validation_error, w).

(** [captainModel.findById(id)] *)
Definition captainModel_findById {E} (id : N) : M E (option CaptainDoc) :=
  fun w => (inr (captains w !! id), w).

(** [captainModel.findByIdAndUpdate(id, update)]: no document, no write. *)
Definition captainModel_findByIdAndUpdate {E} (id : N)
    (update : CaptainDoc -> CaptainDoc) : M E unit :=
  fun w => (inr tt, mkWorld (rides w) (alter update id (captains w))).

Definition captain_is (r : Ride) (c : N) : bool :=
  match captain r with Some c' => N.eqb c' c | None => false end.

(** *** The service operations ([services/ride.service.js]) *)

Definition confirmRide (now : Z) (rideId : N) (captain_id : N) : M string Ride :=
  rethrow (fun message => "Failed to confirm ride: " ++ message)
    (ride <- rideModel_findOne rideId
               (fun r => Status_eqb (status r) REQUESTED) ;;
     match ride with
     | None => throw "Ride not found or already accepted"
     | Some ride =>
         captainDoc <- captainModel_findById captain_id ;;
         match captainDoc with
         | None => throw "Captain is not available"
         | Some doc =>
             if negb (isAvailable doc) then throw "Captain is not available"
             else
               let ride := with_captain ride (Some captain_id) in
               let ride := with_status ride ACCEPTED in
               let ride := with_estimatedArrivalTime ride (Some (now + 10 * 60000)) in
               ride_save estimate_not_in_future now rideId ride ;;;
               captainModel_findByIdAndUpdate captain_id
                 (fun c => mkCaptainDoc (socketId c) false now) ;;;
               ret ride
         end
     end).

Definition startRide (now : Z) (rideId : N) (supplied : jsval) (captain_id : N)
    : M string Ride :=
  rethrow (fun message => "Failed to start ride: " ++ message)
    (ride <- rideModel_findOne rideId
               (fun r => captain_is r captain_id
                         && Status_eqb (status r) ACCEPTED) ;;
     match ride with
     | None => throw "Ride not found or not in correct state"
     | Some ride =>
         if strict_neq (otp ride) supplied then throw "Invalid OTP"
         else
           let ride := with_status ride IN_PROGRESS in
           let ride := with_actualArrivalTime ride (Some now) in
           ride_save estimate_not_in_future now rideId ride ;;;
           ret ride
     end).

Definition endRide (now : Z) (rideId : N) (captain_id : N)
    (paymentMethod : option string) (tip : option Z) : M string Ride :=
  rethrow (fun message => "Failed to end ride: " ++ message)
    (ride <- rideModel_findOne rideId
               (fun r => captain_is r captain_id
                         && Status_eqb (status r) IN_PROGRESS) ;;
     match ride with
     | None => throw "Ride not found or not in progress"
     | Some ride =>
         let ride := with_status ride COMPLETED in
         let ride := with_actualEndTime ride (Some now) in
         ride_save estimate_not_in_future now rideId ride ;;;
         ret ride
     end).

Definition cancelRide (now : Z) (rideId : N) (userId : N)
    (reason : option string) : M string Ride :=
  rethrow (fun message => "Failed to cancel ride: " ++ message)
    (ride <- rideModel_findOne rideId
               (fun r => N.eqb (user r) userId
                         && (Status_eqb (status r) REQUESTED
                             || Status_eqb (status r) ACCEPTED)) ;;
     match ride with
     | None => throw "Ride not found or cannot be cancelled"
     | Some ride =>
         let ride := with_status ride CANCELLED in
         let ride := with_cancellationReason ride reason in
         ride_save estimate_not_in_future now rideId ride ;;;
         ret ride
     end).

(** *** Status updates ([socket.js], [controllers/ride.controller.js]) *)

Inductive UserType : Set := User | Captain.

Definition UserType_eqb (a b : UserType) : bool :=
  match a, b with
  | User, User | Captain, Captain => true
  | _, _ => false
  end.

(** [socket.user] and [req.user]. *)
Record Requester : Type := mkRequester {
  id : N;
  type : UserType
}.

(** The [data] object of a status request. *)
Record StatusData : Type := mkStatusData {
  data_otp : jsval;
  data_reason : option string
}.

(** The table [validTransitions], written out identically in both handlers. *)
Definition validTransitions (current : Status) : list string :=
  match current with
  | REQUESTED => ["accepted"; "cancelled"]
  | ACCEPTED => ["on-the-way"; "cancelled"]
  | ON_THE_WAY => ["in-progress"; "cancelled"]
  | IN_PROGRESS => ["completed"; "cancelled"]
  | COMPLETED => []
  | CANCELLED => []
  end.

(** [Array.prototype.includes] on an array of strings. *)
Definition includes (l : list string) (x : string) : bool :=
  existsb (String.eqb x) l.

Definition invalid_transition_message (current : Status) (status : string)
    : string :=
  "Invalid status transition from " ++ status_name current ++ " to " ++ status.

(** [data.reason || 'Cancelled by user'] *)
Definition reason_or_default (d : StatusData) : string :=
  match data_reason d with
  | Some reason => if String.eqb reason "" then "Cancelled by user" else reason
  | None => "Cancelled by user"
  end.

(** [ride.status = status]: the document takes the named status; a name
    outside the schema's [enum] fails validation. *)
Definition assign_status {E} (validation_error : E) (ride : Ride)
    (status : string) : M E Ride :=
  match status_of_name status with
  | Some s => ret (with_status ride s)
  | None => throw validation_error
  end.

(** [captainModel.findByIdAndUpdate(ride.captain, ..)]; for a ride without
    captain no captain is written.  The cancelled case tests
    [if (ride.captain)] itself; the completed case is reached only from
    in-progress, by rides that acquired their captain when accepted. *)
Definition update_ride_captain {E} (ride : Ride)
    (update : CaptainDoc -> CaptainDoc) : M E unit :=
  match captain ride with
  | Some c => captainModel_findByIdAndUpdate c update
  | None => ret tt
  end.

(** The [switch (status)] of the ['ride:status'] handler. *)
Definition ride_status_switch (socket_user : Requester) (now : Z)
    (status : string) (data : option StatusData) (ride : Ride) : M string Ride :=
  if String.eqb status "accepted" then
    if negb (UserType_eqb (type socket_user) Captain)
    then throw "Only captain can accept rides"
    else
      let ride := with_captain ride (Some (id socket_user)) in
      captainModel_findByIdAndUpdate (id socket_user)
        (fun c => mkCaptainDoc (socketId c) false now) ;;;
      ret ride
  else if String.eqb status "on-the-way" then
    if negb (UserType_eqb (type socket_user) Captain)
    then throw "Only captain can update ride to on-the-way"
    else ret (with_estimatedArrivalTime ride (Some (now + 15 * 60 * 1000)))
  else if String.eqb status "in-progress" then
    if negb (UserType_eqb (type socket_user) Captain)
    then throw "Only captain can start rides"
    else
      match data with
      | None => throw "Cannot read properties of undefined (reading 'otp')"
      | Some d =>
          if truthy (data_otp d) && strict_neq (otp ride) (data_otp d)
          then throw "Invalid OTP"
          else ret (with_actualArrivalTime ride (Some now))
      end
  else if String.eqb status "completed" then
    if negb (UserType_eqb (type socket_user) Captain)
    then throw "Only captain can complete rides"
    else
      let ride := with_actualEndTime ride (Some now) in
      update_ride_captain ride (fun c => mkCaptainDoc (socketId c) true now) ;;;
      ret ride
  else if String.eqb status "cancelled" then
    match data with
    | None => throw "Cannot read properties of undefined (reading 'reason')"
    | Some d =>
        let ride := with_cancellationReason ride (Some (reason_or_default d)) in
        update_ride_captain ride (fun c => mkCaptainDoc (socketId c) true now) ;;;
        ret ride
    end
  else ret ride.

(** [socket.on('ride:status', async ({ rideId, status, data }) => ..)].
    [rideId = None] is a missing id.  The result [inl message] is the
    [error] event the [catch] emits to the sender. *)
Definition on_ride_status (socket_user : Requester) (now : Z)
    (rideId : option N) (status : string) (data : option StatusData)
    : M string unit :=
  match rideId with
  | None => throw "Invalid ride data"
  | Some rideId =>
      if String.eqb status "" then throw "Invalid ride data"
      else
        ride <- rideModel_findById rideId ;;
        match ride with
        | None => throw "Ride not found"
        | Some ride =>
            if negb (includes (validTransitions (Dispatch.status ride)) status)
            then throw (invalid_transition_message (Dispatch.status ride) status)
            else
              ride <- assign_status "Ride validation failed" ride status ;;
              ride <- ride_status_switch socket_user now status data ride ;;
              ride_save estimate_not_in_future now rideId ride
        end
  end.

(** The JSON body of an HTTP answer, with its status code. *)
Record Response : Type := mkResponse {
  statusCode : Z;
  success : bool;
  message : string
}.

(** The answer of the [catch] of [updateRideStatus]. *)
Definition error_updating : Response :=
  mkResponse 500 false "Error updating ride status".

(** The [switch (status)] of [updateRideStatus]; [inl] is an early
    [return res.status(..).json(..)] or the answer of the [catch]. *)
Definition updateRideStatus_switch (req_user : Requester) (now : Z)
    (status : string) (data : option StatusData) (ride : Ride)
    : M Response Ride :=
  if String.eqb status "accepted" then
    if negb (UserType_eqb (type req_user) Captain)
    then throw (mkResponse 403 false "Only captain can accept rides")
    else
      let ride := with_captain ride (Some (id req_user)) in
      captainModel_findByIdAndUpdate (id req_user)
        (fun c => mkCaptainDoc (socketId c) false now) ;;;
      ret ride
  else if String.eqb status "on-the-way" then
    if negb (UserType_eqb (type req_user) Captain)
    then throw (mkResponse 403 false "Only captain can update ride to on-the-way")
    else ret (with_estimatedArrivalTime ride (Some (now + 15 * 60 * 1000)))
  else if String.eqb status "in-progress" then
    if negb (UserType_eqb (type req_user) Captain)
    then throw (mkResponse 403 false "Only captain can start rides")
    else
      match data with
      | None => throw error_updating
      | Some d =>
          if truthy (data_otp d) && strict_neq (otp ride) (data_otp d)
          then throw (mkResponse 400 false "Invalid OTP")
          else ret (with_actualArrivalTime ride (Some now))
      end
  else if String.eqb status "completed" then
    if negb (UserType_eqb (type req_user) Captain)
    then throw (mkResponse 403 false "Only captain can complete rides")
    else
      let ride := with_actualEndTime ride (Some now) in
      update_ride_captain ride (fun c => mkCaptainDoc (socketId c) true now) ;;;
      ret ride
  else if String.eqb status "cancelled" then
    match data with
    | None => throw error_updating
    | Some d =>
        let ride := with_cancellationReason ride (Some (reason_or_default d)) in
        update_ride_captain ride (fun c => mkCaptainDoc (socketId c) true now) ;;;
        ret ride
    end
  else ret ride.

(** [module.exports.updateRideStatus] of the ride controller. *)
Definition updateRideStatus (req_user : Requester) (now : Z) (rideId : N)
    (status : string) (data : option StatusData) : World -> Response * World :=
  fun w =>
    match
      (ride <- rideModel_findById rideId ;;
       match ride with
       | None => throw (mkResponse 404 false "Ride not found")
       | Some ride =>
           if negb (includes (validTransitions (Dispatch.status ride)) status)
           then throw (mkResponse 400 false
                         (invalid_transition_message (Dispatch.status ride) status))
           else
             ride <- assign_status error_updating ride status ;;
             ride <- updateRideStatus_switch req_user now status data ride ;;
             ride_save error_updating now rideId ride ;;;
             ret (mkResponse 200 true "Ride status updated successfully")
       end) w
    with
    | (inl response, w') => (response, w')
    | (inr response, w') => (response, w')
    end.

(** *** Socket connect and disconnect of a captain ([socket.js]) *)

(** The captain branch of the authentication middleware [io.use], for a
    token already verified and decoded to the captain's id. *)
Definition io_use_captain (now : Z) (socket_id : string) (decoded_id : N)
    : M string unit :=
  captain <- captainModel_findById decoded_id ;;
  match captain with
  | None => throw "Captain not found"
  | Some _ =>
      captainModel_findByIdAndUpdate decoded_id
        (fun _ => mkCaptainDoc (Some socket_id) true now)
  end.

(** [socket.on('disconnect', ..)] *)
Definition on_disconnect (socket_user : Requester) (now : Z) : M string unit :=
  if UserType_eqb (type socket_user) Captain then
    captainModel_findByIdAndUpdate (id socket_user)
      (fun _ => mkCaptainDoc None false now)
  else ret tt.

(** *** The captain's HTTP routes that write the availability flag
        ([controllers/ride.controller.js], [controllers/captain.controller.js]) *)

(** [try { m } catch (err) { return res.status(..).json(h(err)) }] *)
Definition answer_error {E E' A} (h : E -> E') (m : M E A) : M E' A :=
  fun w => match m w with
           | (inl e, w') => (inl (h e), w')
           | (inr a, w') => (inr a, w')
           end.

(** [module.exports.confirmRide] of the ride controller, for a request that
    passed [authCaptain] and the check of the route.  [inl] is an answer
    with an error status; [inr] is the answer with status 200, with the
    stored ride its [data] is read from. *)
Definition confirmRide_controller (now : Z) (rideId : N) (captain_id : N)
    : M Response (option Ride) :=
  captain <- captainModel_findById captain_id ;;
  match captain with
  | None =>
      throw (mkResponse 500 false
               "Cannot read properties of null (reading 'isAvailable')")
  | Some captain =>
      if negb (isAvailable captain)
      then throw (mkResponse 400 false "Captain is currently on another ride")
      else
        answer_error (mkResponse 500 false)
          (confirmRide now rideId captain_id) ;;;
        captainModel_findByIdAndUpdate captain_id
          (fun c => mkCaptainDoc (socketId c) false now) ;;;
        rideModel_findById rideId
  end.

(** The answers of [POST /captains/availability]: 401 'Captain not found',
    400 with the errors of the check, 200 'Availability updated
    successfully' with the flag as stored, 500 'Error updating
    availability'. *)
Inductive AvailabilityAnswer : Type :=
  | CaptainNotFound
  | InvalidAvailability
  | AvailabilityUpdated (isAvailable : bool)
  | ErrorUpdatingAvailability.

(** [POST /captains/availability]: [authCaptain] for a token already
    verified and decoded to the captain's id (401 'Captain not found'), the
    [isBoolean] check of the route (400 with the errors), then
    [module.exports.updateAvailability], which assigns the flag on
    [req.captain] and saves it (200), or answers 500 when the save throws.
    [isAvailable] is [req.body.isAvailable] as the schema casts it, [None]
    for a value [isBoolean] refuses.  The captain schema is not part of the
    sources: [valid] says whether its validators accept the loaded
    document. *)
Definition updateAvailability (captain_id : N) (isAvailable : option bool)
    (valid : bool) : World -> AvailabilityAnswer * World :=
  fun w =>
    match captains w !! captain_id with
    | None => (CaptainNotFound, w)
    | Some captain =>
        match isAvailable with
        | None => (InvalidAvailability, w)
        | Some isAvailable =>
            if valid then
              (AvailabilityUpdated isAvailable,
               mkWorld (rides w)
                 (<[captain_id := mkCaptainDoc (socketId captain) isAvailable
                                    (lastSeen captain)]> (captains w)))
            else (ErrorUpdatingAvailability, w)
        end
    end.

(** *** The vocabulary of the specification *)

(** The edges the specification lists: the chain to [COMPLETED], and
    [CANCELLED] from [REQUESTED], [ACCEPTED] and [IN_PROGRESS]. *)
Definition spec_edge (a b : Status) : bool :=
  match a, b with
  | REQUESTED, ACCEPTED | ACCEPTED, ON_THE_WAY | ON_THE_WAY, IN_PROGRESS
  | IN_PROGRESS, COMPLETED | IN_PROGRESS, CANCELLED
  | REQUESTED, CANCELLED | ACCEPTED, CANCELLED => true
  | _, _ => false
  end.

(** The edges of the table of the source: those of the specification and
    [ON_THE_WAY] to [CANCELLED]. *)
Definition edge (a b : Status) : bool :=
  match a, b with
  | ON_THE_WAY, CANCELLED => true
  | _, _ => spec_edge a b
  end.


(** An active assignment: the status set of the location fan-out,
    [['accepted', 'on-the-way', 'in-progress']]. *)
Definition active (s : Status) : bool :=
  match s with ACCEPTED | ON_THE_WAY | IN_PROGRESS => true | _ => false end.

Definition holds_active_ride (w : World) (c : N) : bool :=
  existsb (fun kr => captain_is (snd kr) c && active (status (snd kr)))
          (map_to_list (rides w)).

(** The availability flag of a captain, if the captain exists. *)
Definition available (w : World) (c : N) : option bool :=
  isAvailable <$> captains w !! c.

(** The invariant of the specification on one captain: the flag is false
    exactly when the captain holds an active ride. *)
Definition spec_availability (w : World) (c : N) : bool :=
  match available w c with
  | Some flag => Bool.eqb flag (negb (holds_active_ride w c))
  | None => true
  end.

(** *** Sample collections

    One rider (10), one captain (7), one ride (1) with code 482913, in each
    of the states the statements below are run on. *)

Definition sample_ride (c : option N) (s : Status) : Ride :=
  mkRide 10 c s "482913" None None None None.

Definition sample_world (c : option N) (s : Status) (flag : bool) : World :=
  mkWorld {[ 1%N := sample_ride c s ]}
          {[ 7%N := mkCaptainDoc (Some "sock-7") flag 1000 ]}.

(** The same collections when ride 1 carries an arrival estimate. *)
Definition sample_world_due (c : option N) (s : Status) (flag : bool)
    (estimate : Z) : World :=
  mkWorld {[ 1%N := with_estimatedArrivalTime (sample_ride c s) (Some estimate) ]}
          {[ 7%N := mkCaptainDoc (Some "sock-7") flag 1000 ]}.

Definition captain7 : Requester := mkRequester 7 Captain.
Definition rider10 : Requester := mkRequester 10 User.
Definition no_data : StatusData := mkStatusData undefined None.

End Dispatch.

(** ** Routes ([services/maps.service.js])

    Coordinates, distances and durations are idealised as real numbers, and
    [Math.sin], [Math.cos], [Math.sqrt] and [Math.atan2] as the functions
    they approximate.  The answer of the routing provider to the one request
    a lookup makes is the argument [reply].  [routeCache] is a finite map
    from key strings to the objects stored under them; the expiry of an
    entry is not modelled. *)
Module Maps.
Local Open Scope string_scope.
Local Open Scope R_scope.

(** A coordinate as [isNaN] sees it. *)
Inductive jsnum : Type :=
  | NaN
  | Num (x : R).

Definition isNaN (v : jsnum) : bool :=
  match v with NaN => true | Num _ => false end.

Definition value (v : jsnum) : R :=
  match v with NaN => 0 | Num x => x end.

(** [{ address, coordinates: { type: 'Point', coordinates: [lng, lat] } }];
    [None] is a [coordinates.coordinates] that is missing or no array. *)
Record Location : Type := mkLocation {
  address : string;
  coordinates : option (list jsnum)
}.

Record Step : Type := mkStep {
  step_distance : R;
  step_duration : R
}.

(** One route of a provider answer; [legs_steps] is [route.legs[0].steps]. *)
Record OsrmRoute : Type := mkOsrmRoute {
  route_distance : R;
  route_duration : R;
  legs_steps : option (list Step)
}.

Record OsrmData : Type := mkOsrmData {
  code : string;
  routes : option (list OsrmRoute)
}.

(** The outcome of [axios.get]: an exception (time-out, refused connection,
    error status) or a response with its [data]. *)
Inductive OsrmReply : Type :=
  | RequestFailed (message : string)
  | Replied (data : option OsrmData).

(** The object [getDistanceTime] returns:
    [{ distance: { value }, duration: { value } }]. *)
Record DistanceTime : Type := mkDistanceTime {
  distance_value : R;
  duration_value : R
}.

(** The object [getRouteDetails] returns (the geometry is left out). *)
Record RouteDetails : Type := mkRouteDetails {
  rd_distance : R;
  rd_duration : R;
  rd_steps : list Step
}.

(** What [routeCache] holds: both lookups store into the same cache. *)
Inductive CacheEntry : Type :=
  | DistanceTimeEntry (r : DistanceTime)
  | RouteDetailsEntry (r : RouteDetails).

Inductive error : Type :=
  | Error (message : string)
  | ApiError (statusCode : Z) (message : string).

Definition deg2rad (deg : R) : R := deg * (PI / 180).

(** [Math.atan2(y, x)] *)
Definition Math_atan2 (y x : R) : R :=
  if Rlt_dec 0 x then atan (y / x)
  else if Rlt_dec x 0 then
    if Rle_dec 0 y then atan (y / x) + PI else atan (y / x) - PI
  else if Rlt_dec 0 y then PI / 2
  else if Rlt_dec y 0 then - (PI / 2)
  else 0.

(** The haversine helper of [maps.service.js]: kilometres. *)
Definition calculateDistance (lat1 lon1 lat2 lon2 : R) : R :=
  let R := 6371 in
  let dLat := deg2rad (lat2 - lat1) in
  let dLon := deg2rad (lon2 - lon1) in
  let a := sin (dLat / 2) * sin (dLat / 2)
           + cos (deg2rad lat1) * cos (deg2rad lat2)
             * sin (dLon / 2) * sin (dLon / 2) in
  let c := 2 * Math_atan2 (sqrt a) (sqrt (1 - a)) in
  R * c.

(** The [catch (osrmError)] branch of [getDistanceTime]. *)
Definition fallback (pickupLat pickupLng destLat destLng : R) : DistanceTime :=
  let distance := calculateDistance pickupLat pickupLng destLat destLng * 1000 in
  let avgSpeed := 30 in
  let duration := (distance / 1000) / avgSpeed * 3600 in
  mkDistanceTime distance duration.

(** The first route of an answer that passes the test of [getDistanceTime]:
    [response.data && code === 'Ok' && routes && routes[0]]. *)
Definition first_route (reply : OsrmReply) : option OsrmRoute :=
  match reply with
  | Replied (Some data) =>
      if String.eqb (code data) "Ok" then
        match routes data with
        | Some (route :: _) => Some route
        | _ => None
        end
      else None
  | _ => None
  end.

Section Cache.

(** [JSON.stringify] on a location and [Array.prototype.join(',')] on a
    coordinate array, the two serialisations the cache keys are built with. *)
Variable JSON_stringify : Location -> string.
Variable join : list jsnum -> string.

Definition getDistanceTime_key (pickup destination : Location) : string :=
  "route:" ++ JSON_stringify pickup ++ ":" ++ JSON_stringify destination.

Definition getRouteDetails_key (origin destination : list jsnum) : string :=
  "route:" ++ join origin ++ "-" ++ join destination.

(** [getDistanceTime(pickup, destination)] *)
Definition getDistanceTime (reply : OsrmReply) (pickup destination : Location)
    (routeCache : gmap string CacheEntry)
    : (error + CacheEntry) * gmap string CacheEntry :=
  let failed := Error "Failed to calculate route distance and duration" in
  let cacheKey := getDistanceTime_key pickup destination in
  match routeCache !! cacheKey with
  | Some cachedRoute => (inr cachedRoute, routeCache)
  | None =>
      match coordinates pickup, coordinates destination with
      | Some p, Some d =>
          let pickupLng := nth 0 p NaN in
          let pickupLat := nth 1 p NaN in
          let destLng := nth 0 d NaN in
          let destLat := nth 1 d NaN in
          if isNaN pickupLng || isNaN pickupLat || isNaN destLng || isNaN destLat
          then (inl failed, routeCache)
          else
            match first_route reply with
            | Some route =>
                let result := DistanceTimeEntry
                                (mkDistanceTime (route_distance route)
                                                (route_duration route)) in
                (inr result, <[cacheKey := result]> routeCache)
            | None =>
                let result := DistanceTimeEntry
                                (fallback (value pickupLat) (value pickupLng)
                                          (value destLat) (value destLng)) in
                (inr result, <[cacheKey := result]> routeCache)
            end
      | _, _ => (inl failed, routeCache)
      end
  end.

(** The route a provider answer yields in [getRouteDetails]:
    [code === 'Ok'], a non-empty [routes], and the steps of the first leg. *)
Definition route_details (reply : OsrmReply) : option RouteDetails :=
  match reply with
  | Replied (Some data) =>
      if String.eqb (code data) "Ok" then
        match routes data with
        | Some (route :: _) =>
            match legs_steps route with
            | Some steps =>
                Some (mkRouteDetails (route_distance route)
                                     (route_duration route) steps)
            | None => None
            end
        | _ => None
        end
      else None
  | _ => None
  end.

(** [getRouteDetails(origin, destination)] *)
Definition getRouteDetails (reply : OsrmReply) (origin destination : Location)
    (routeCache : gmap string CacheEntry)
    : (error + CacheEntry) * gmap string CacheEntry :=
  match coordinates origin, coordinates destination with
  | Some o, Some d =>
      if negb (Nat.eqb (length o) 2) || negb (Nat.eqb (length d) 2)
      then (inl (ApiError 400
                   "Origin and destination with valid coordinates are required"),
            routeCache)
      else
        let cacheKey := getRouteDetails_key o d in
        match routeCache !! cacheKey with
        | Some cachedRoute => (inr cachedRoute, routeCache)
        | None =>
            match route_details reply with
            | Some routeDetails =>
                (inr (RouteDetailsEntry routeDetails),
                 <[cacheKey := RouteDetailsEntry routeDetails]> routeCache)
            | None =>
                (inl (ApiError 500
                        "Failed to get route details from mapping service."),
                 routeCache)
            end
        end
  | _, _ =>
      (inl (ApiError 400
              "Origin and destination with valid coordinates are required"),
       routeCache)
  end.

End Cache.

(** A location with two numeric coordinates. *)
Definition point (name : string) (lng lat : R) : Location :=
  mkLocation name (Some [Num lng; Num lat]).

End Maps.

(** ** The other realtime handlers of a captain ([socket.js]) *)
Module Realtime.
Import Dispatch.
Local Open Scope string_scope.
Local Open Scope Z_scope.
Local Open Scope dispatch_scope.

(** [socket.on('update:lastSeen', ..)]; the branch of a rider writes the
    user collection, which holds no dispatch state. *)
Definition on_update_lastSeen (socket_user : Requester) (now : Z) : M string unit :=
  if UserType_eqb (type socket_user) Captain then
    captainModel_findByIdAndUpdate (id socket_user)
      (fun c => mkCaptainDoc (socketId c) (isAvailable c) now)
  else ret tt.

(** [captainModel.find({ lastSeen: { $gte: new Date(Date.now() - 5 * 60 * 1000) } })],
    in the order the collection yields its documents. *)
Definition active_captains (now : Z) (w : World) : list (N * CaptainDoc) :=
  filter (fun kc => now - 5 * 60 * 1000 <= lastSeen (snd kc))
         (map_to_list (captains w)).

(** [if (captain.socketId)]: the socket of a captain document, when it has
    one that is truthy. *)
Definition socket_of (doc : CaptainDoc) : option string :=
  match socketId doc with
  | Some s => if String.eqb s "" then None else Some s
  | None => None
  end.

(** What the ['new:ride'] handler emits. *)
Inductive NewRideOutcome : Type :=
  | ErrorToSender (message : string)
  | ErrorToUser (userId : N) (message : string)
  | NewRideTo (sockets : list string).

(** [socket.on('new:ride', async (rideData) => ..)]; [userId] is
    [rideData.userId], [None] when [rideData] or its [userId] is missing.
    The handler reads the captain collection and writes nothing. *)
Definition on_new_ride (userId : option N) (now : Z) (w : World) : NewRideOutcome :=
  match userId with
  | None => ErrorToSender "Invalid ride data"
  | Some userId =>
      let captains := active_captains now w in
      if Nat.eqb (length captains) 0 then
        ErrorToUser userId
          "No drivers are currently available. Please try again later."
      else NewRideTo (omap (fun kc => socket_of (snd kc)) captains)
  end.

End Realtime.

(** ** The ride operations as one transition system

    Each request is one of the operations of [Dispatch] and [Realtime];
    [perform] is the store it leaves, whether it returned or threw. *)
Module Lifecycle.
Import Dispatch Realtime.
Local Open Scope Z_scope.

Inductive Request : Type :=
  | ConfirmRide (rideId captain_id : N)
  | StartRide (rideId : N) (supplied : jsval) (captain_id : N)
  | EndRide (rideId captain_id : N) (paymentMethod : option string)
            (tip : option Z)
  | CancelRide (rideId userId : N) (reason : option string)
  | SocketStatus (socket_user : Requester) (rideId : option N) (name : string)
                 (data : option StatusData)
  | HttpStatus (req_user : Requester) (rideId : N) (name : string)
               (data : option StatusData)
  | Connect (socket_id : string) (captain_id : N)
  | Disconnect (socket_user : Requester)
  | LastSeen (socket_user : Requester).

Definition perform (now : Z) (req : Request) (w : World) : World :=
  match req with
  | ConfirmRide rideId c => snd (confirmRide now rideId c w)
  | StartRide rideId supplied c => snd (startRide now rideId supplied c w)
  | EndRide rideId c paymentMethod tip =>
      snd (endRide now rideId c paymentMethod tip w)
  | CancelRide rideId userId reason =>
      snd (cancelRide now rideId userId reason w)
  | SocketStatus u rideId name data =>
      snd (on_ride_status u now rideId name data w)
  | HttpStatus u rideId name data =>
      snd (updateRideStatus u now rideId name data w)
  | Connect socket_id c => snd (io_use_captain now socket_id c w)
  | Disconnect u => snd (on_disconnect u now w)
  | LastSeen u => snd (on_update_lastSeen u now w)
  end.

(** A sequence of requests, each with the clock at which it is served. *)
Fixpoint run (trace : list (Z * Request)) (w : World) : World :=
  match trace with
  | [] => w
  | (now, req) :: trace => run trace (perform now req w)
  end.

(** The edges the operations can take together: those of the transition
    table and accepted to in-progress, the step of [startRide]. *)
Definition lifecycle_edge (a b : Status) : bool :=
  match a, b with
  | ACCEPTED, IN_PROGRESS => true
  | _, _ => edge a b
  end.


(** One step of a stored ride: along the life cycle, with the same rider
    and code, and the same captain unless the step is the acceptance of a
    requested ride. *)
Definition steps (r r' : Ride) : Prop :=
  user r' = user r /\ otp r' = otp r
  /\ lifecycle_edge (status r) (status r') = true
  /\ (status r' = ACCEPTED -> is_Some (captain r'))
  /\ (status r' <> ACCEPTED -> captain r' = captain r).

(** What a save at clock [now] accepts: a ride whose arrival estimate is
    in the future; the estimate is the stored one unless the step is an
    acceptance or the report of being on the way. *)
Definition saved_at (now : Z) (r r' : Ride) : Prop :=
  estimate_in_future now r' = true
  /\ (status r' <> ACCEPTED -> status r' <> ON_THE_WAY ->
      estimatedArrivalTime r' = estimatedArrivalTime r).

(** What an operation at clock [now] does to the ride collection: nothing,
    or it stores one ride it found, one step further. *)
Definition writes_one (now : Z) (w w' : World) : Prop :=
  rides w' = rides w
  \/ exists (rid : N) (r r' : Ride),
       rides w !! rid = Some r /\ rides w' = <[rid := r']> (rides w)
       /\ steps r r' /\ saved_at now r r'.

(** A ride has a captain exactly from its acceptance on. *)
Definition assigned_ok (r : Ride) : Prop :=
  (status r = REQUESTED -> captain r = None)
  /\ (status r <> REQUESTED -> status r <> CANCELLED -> is_Some (captain r)).

Definition well_assigned (w : World) : Prop :=
  forall (rideId : N) (r : Ride), rides w !! rideId = Some r -> assigned_ok r.

End Lifecycle.

(** ** Phone numbers and time differences ([utils/helpers.js]) *)
Module Helpers.
Local Open Scope string_scope.
Local Open Scope Z_scope.

(** [phone.replace(/\D/g, '')]: the digits of the string, in order. *)
Fixpoint sanitizePhone (phone : string) : string :=
  match phone with
  | EmptyString => EmptyString
  | String c rest =>
      if Otp.isDigit c then String c (sanitizePhone rest)
      else sanitizePhone rest
  end.

Definition validatePhone (phone : string) : bool :=
  let sanitized := sanitizePhone phone in
  (10 <=? String.length sanitized)%nat && (String.length sanitized <=? 15)%nat.

(** [s.slice(from, to)] and [s.slice(from)] for indices within the string. *)
Definition slice (s : string) (from to : nat) : string :=
  String.substring from (to - from) s.
Definition slice_from (s : string) (from : nat) : string :=
  String.substring from (String.length s - from) s.

Definition formatPhone (phone : string) : string :=
  let sanitized := sanitizePhone phone in
  if (String.length sanitized =? 10)%nat then
    "(" ++ slice sanitized 0 3 ++ ") " ++ slice sanitized 3 6 ++ "-"
        ++ slice_from sanitized 6
  else sanitized.

(** [getTimeDifference]: two dates as milliseconds since the epoch. *)
Definition getTimeDifference (startTime endTime : Z) : Z :=
  Fare.Math_round (inject_Z (endTime - startTime) / inject_Z (1000 * 60)).

End Helpers.

(** ** The request limiter of [services/maps.service.js] *)
Module RateLimit.
Local Open Scope Z_scope.

(** The keys of [RATE_LIMIT]. *)
Inductive LimitType : Set := locationUpdates | geocoding.

Definition maxRequests (type : LimitType) : nat :=
  match type with locationUpdates => 10%nat | geocoding => 50%nat end.

Definition windowMs (type : LimitType) : Z :=
  match type with locationUpdates => 10000 | geocoding => 60000 end.

(** The object kept per user in [requestCounters]: one array of request
    times per type that has been used. *)
Record UserRequests : Type := mkUserRequests {
  locationUpdates_times : option (list Z);
  geocoding_times : option (list Z)
}.

Definition get_times (u : UserRequests) (type : LimitType) : option (list Z) :=
  match type with
  | locationUpdates => locationUpdates_times u
  | geocoding => geocoding_times u
  end.

Definition set_times (u : UserRequests) (type : LimitType) (times : list Z)
    : UserRequests :=
  match type with
  | locationUpdates => mkUserRequests (Some times) (geocoding_times u)
  | geocoding => mkUserRequests (locationUpdates_times u) (Some times)
  end.

(** [checkRateLimit(userId, type)] at clock [now]. *)
Definition checkRateLimit (now : Z) (userId : N) (type : LimitType)
    (requestCounters : gmap N UserRequests) : bool * gmap N UserRequests :=
  let userRequests := default (mkUserRequests None None) (requestCounters !! userId) in
  let typeRequests := default [] (get_times userRequests type) in
  let recentRequests :=
    List.filter (fun time => now - time <? windowMs type) typeRequests in
  if (maxRequests type <=? length recentRequests)%nat then
    (false, requestCounters)
  else
    let recentRequests := recentRequests ++ [now] in
    let userRequests := set_times userRequests type recentRequests in
    (true, <[userId := userRequests]> requestCounters).

(** The times at which a user's requests of one type are let through, when
    the requests arrive at the clock values [times]. *)
Fixpoint allowed (times : list Z) (userId : N) (type : LimitType)
    (requestCounters : gmap N UserRequests) : list Z :=
  match times with
  | [] => []
  | now :: times =>
      let '(ok, requestCounters) := checkRateLimit now userId type requestCounters in
      if ok then now :: allowed times userId type requestCounters
      else allowed times userId type requestCounters
  end.

(** The limit on a list of admitted request times: each one has fewer than
    [maxRequests] admitted requests less than [windowMs] before it. *)
Definition within_limit (type : LimitType) (admitted : list Z) : Prop :=
  forall (pre post : list Z) (t : Z),
    admitted = pre ++ t :: post ->
    (length (List.filter (fun a => (t - a <? windowMs type)%Z) pre)
     < maxRequests type)%nat.

(** The stored times answer every call from clock [lo] on as the whole list
    of admitted times would. *)
Definition tracks (W : Z) (lo : Z) (kept admitted : list Z) : Prop :=
  forall now, lo <= now ->
    List.filter (fun a => now - a <? W) kept
    = List.filter (fun a => now - a <? W) admitted.

(** Any sequence of calls, of any users and types, each with its clock. *)
Fixpoint serve (calls : list (Z * N * LimitType))
    (requestCounters : gmap N UserRequests) : gmap N UserRequests :=
  match calls with
  | [] => requestCounters
  | (now, userId, type) :: calls =>
      serve calls (snd (checkRateLimit now userId type requestCounters))
  end.

(** The times stored for a user and a type. *)
Definition stored (requestCounters : gmap N UserRequests) (userId : N)
    (type : LimitType) : list Z :=
  default [] (get_times (default (mkUserRequests None None)
                                 (requestCounters !! userId)) type).

End RateLimit.

(** ** Geocoding and suggestions ([services/maps.service.js])

    A string stands for a JavaScript string with one character per UTF-16
    code unit.  The answer of the provider to the [k]-th request of a call is
    [replies k]; the pauses between attempts take time only and are left
    out.  Every function returns, besides its result and the cache, the
    number of requests it sent. *)
Module Geocode.
Local Open Scope string_scope.

(** [item.address] of a provider item. *)
Record ItemAddress : Type := mkItemAddress {
  house_number : option string;
  road : option string;
  suburb : option string;
  city : option string;
  town : option string;
  state : option string;
  country : option string;
  postcode : option string
}.

(** One element of [response.data]. *)
Record Item : Type := mkItem {
  display_name : string;
  lat : string;
  lon : string;
  type : string;
  importance : Q;
  address : option ItemAddress
}.

Record AddressDetails : Type := mkAddressDetails {
  d_house_number : option string;
  d_road : option string;
  d_suburb : option string;
  d_city : option string;
  d_state : option string;
  d_country : option string;
  d_postcode : option string
}.

(** One suggestion, as [getAutoCompleteSuggestions] builds it; a coordinate
    is what [parseFloat] makes of the provider's string. *)
Record Suggestion (Num : Type) : Type := mkSuggestion {
  s_address : string;
  s_lat : Num;
  s_lng : Num;
  s_display_name : string;
  s_type : string;
  s_importance : Q;
  s_address_details : AddressDetails
}.
Arguments mkSuggestion {Num}.
Arguments s_importance {Num}.
Arguments s_display_name {Num}.

Inductive GeoReply : Type :=
  | GeoFailed (message : string)
  | GeoReplied (data : option (list Item)).

(** The data of an answer [makeGeocodingRequest] accepts: a non-empty
    array. *)
Definition usable (r : GeoReply) : option (list Item) :=
  match r with
  | GeoReplied (Some (first :: rest)) => Some (first :: rest)
  | _ => None
  end.

Section Parse.

(** [parseFloat], with the numbers it yields. *)
Variable Num : Type.
Variable parseFloat : string -> Num.

(** What [geocodeCache] holds: provider data under the [geocode:] keys,
    suggestion lists under the [suggestions:] keys. *)
Inductive CacheEntry : Type :=
  | ProviderData (data : list Item)
  | Suggestions (suggestions : list (Suggestion Num)).

(** The [for] loop of [makeGeocodingRequest] from attempt [i] on, with
    [remaining] attempts left. *)
Fixpoint attempt (replies : nat -> GeoReply) (cacheKey : string)
    (i remaining : nat) (geocodeCache : gmap string CacheEntry)
    : option CacheEntry * gmap string CacheEntry * nat :=
  match remaining with
  | O => (None, geocodeCache, i)
  | S remaining =>
      match replies i with
      | GeoReplied (Some (first :: rest)) =>
          let result := ProviderData (first :: rest) in
          (Some result, <[cacheKey := result]> geocodeCache, S i)
      | _ => attempt replies cacheKey (S i) remaining geocodeCache
      end
  end.

(** [makeGeocodingRequest(address, retries = 3)]; [None] is [null]. *)
Definition makeGeocodingRequest (replies : nat -> GeoReply) (address : string)
    (retries : nat) (geocodeCache : gmap string CacheEntry)
    : option CacheEntry * gmap string CacheEntry * nat :=
  let cacheKey := "geocode:" ++ address in
  match geocodeCache !! cacheKey with
  | Some cachedResult => (Some cachedResult, geocodeCache, O)
  | None => attempt replies cacheKey 0 retries geocodeCache
  end.

(** [x?.f]: a field of the address, if there is an address. *)
Definition field (f : ItemAddress -> option string) (a : option ItemAddress)
    : option string :=
  match a with Some a => f a | None => None end.

(** [a || b] on optional strings: the empty string is falsy. *)
Definition or_else (a b : option string) : option string :=
  match a with
  | Some s => if String.eqb s "" then b else a
  | None => b
  end.

(** The callback of [response.data.map]. *)
Definition to_suggestion (item : Item) : Suggestion Num :=
  mkSuggestion (display_name item) (parseFloat (lat item))
    (parseFloat (lon item)) (display_name item) (type item) (importance item)
    (mkAddressDetails (field house_number (address item))
       (field road (address item)) (field suburb (address item))
       (or_else (field city (address item)) (field town (address item)))
       (field state (address item)) (field country (address item))
       (field postcode (address item))).

(** [suggestions.sort((a, b) => b.importance - a.importance)]: the stable
    sort by falling importance; [place] puts a suggestion in front of the
    first one that is not more important. *)
Fixpoint place (x : Suggestion Num) (l : list (Suggestion Num))
    : list (Suggestion Num) :=
  match l with
  | [] => [x]
  | y :: rest =>
      if Qle_bool (s_importance y) (s_importance x) then x :: y :: rest
      else y :: place x rest
  end.

Definition sort_by_importance (l : list (Suggestion Num)) : list (Suggestion Num) :=
  foldr place [] l.

(** [`suggestions:${input}:${country}:${type}`]; a missing country prints
    as [null]. *)
Definition suggestions_key (input : string) (country : option string)
    (type : string) : string :=
  "suggestions:" ++ input ++ ":" ++ default "null" country ++ ":" ++ type.

(** [getAutoCompleteSuggestions(input, options)]; of the options only
    [country] and [type] reach the cache key, the others only the request. *)
Definition getAutoCompleteSuggestions (reply : GeoReply) (input : string)
    (country : option string) (type : string)
    (geocodeCache : gmap string CacheEntry)
    : CacheEntry * gmap string CacheEntry * nat :=
  if String.eqb input "" || (String.length input <? 3)%nat then
    (Suggestions [], geocodeCache, O)
  else
    let cacheKey := suggestions_key input country type in
    match geocodeCache !! cacheKey with
    | Some cachedSuggestions => (cachedSuggestions, geocodeCache, O)
    | None =>
        match reply with
        | GeoReplied (Some data) =>
            let suggestions := sort_by_importance (to_suggestion <$> data) in
            (Suggestions suggestions,
             <[cacheKey := Suggestions suggestions]> geocodeCache, 1%nat)
        | _ => (Suggestions [], geocodeCache, 1%nat)
        end
    end.

(** Falling importance. *)
Definition falling (l : list (Suggestion Num)) : Prop :=
  Sorted.StronglySorted
    (fun a b => (s_importance b <= s_importance a)%Q) l.

End Parse.

End Geocode.

(** ** The traffic multiplier ([services/maps.service.js])

    The multiplier is one of the literals 1.0, 1.5 and 1.3, written here as
    the rationals they denote; the one operation on them, the product with
    1.0, is exact.  [trafficCache] is a finite map from key strings to the
    multipliers stored under them; the expiry of an entry is not modelled,
    nor is the arithmetic of [calculateETA] on the multiplier. *)
Module Traffic.
Local Open Scope string_scope.
Local Open Scope Q_scope.

(** The multiplier [getTrafficMultiplier] computes for an hour. *)
Definition multiplier_of_hour (hour : Z) : Q :=
  let multiplier := 1 in
  if ((7 <=? hour) && (hour <=? 9) || (17 <=? hour) && (hour <=? 19))%Z
  then multiplier * (3 # 2)
  else if ((22 <=? hour) || (hour <=? 5))%Z then multiplier * (13 # 10)
  else multiplier.

Section Keys.

(** [coordinates.join(',')] *)
Variable join : list Q -> string.

Definition traffic_key (coordinates : list Q) (hour : Z) : string :=
  "traffic:" ++ join coordinates ++ ":" ++ Otp.toString hour.

(** [getTrafficMultiplier(coordinates, time)]; [hour] is [time.getHours()],
    [coordinates = None] is a missing array, on which [join] throws and the
    [catch] answers 1.0.  A cached value counts when it is truthy. *)
Definition getTrafficMultiplier (coordinates : option (list Q)) (hour : Z)
    (trafficCache : gmap string Q) : Q * gmap string Q :=
  match coordinates with
  | None => (1, trafficCache)
  | Some coordinates =>
      let cacheKey := traffic_key coordinates hour in
      match trafficCache !! cacheKey with
      | Some cachedMultiplier =>
          if negb (Qeq_bool cachedMultiplier 0) then (cachedMultiplier, trafficCache)
          else (multiplier_of_hour hour,
                <[cacheKey := multiplier_of_hour hour]> trafficCache)
      | None => (multiplier_of_hour hour,
                 <[cacheKey := multiplier_of_hour hour]> trafficCache)
      end
  end.

(** A cache that holds, for these coordinates and this hour, nothing or the
    multiplier of the hour. *)
Definition coherent (coordinates : list Q) (hour : Z)
    (trafficCache : gmap string Q) : Prop :=
  match trafficCache !! traffic_key coordinates hour with
  | Some m => m = multiplier_of_hour hour
  | None => True
  end.

End Keys.

End Traffic.

(** ** The jump test and the second haversine ([services/maps.service.js],
       [utils/helpers.js]), over the reals as in [Maps] *)
Module Accuracy.
Local Open Scope R_scope.



(** [calculateDistance] of [utils/helpers.js]: kilometres. *)
Definition calculateDistance (lat1 lon1 lat2 lon2 : R) : R :=
  let R := 6371 in
  let dLat := (lat2 - lat1) * PI / 180 in
  let dLon := (lon2 - lon1) * PI / 180 in
  let a := sin (dLat / 2) * sin (dLat / 2)
           + cos (lat1 * PI / 180) * cos (lat2 * PI / 180)
             * sin (dLon / 2) * sin (dLon / 2) in
  let c := 2 * Maps.Math_atan2 (sqrt a) (sqrt (1 - a)) in
  R * c.


End Accuracy.

(** ** The route of a new ride ([createRide] of [services/ride.service.js])

    The loop around [getRouteDetails] and the fare that follows it.  The
    outcome of the [k]-th call of [getRouteDetails] is [answers k]; the
    pauses between attempts are left out.  The loop has no bound of its
    own, so its model counts iterations down from [fuel]. *)
Module CreateRide.
Local Open Scope string_scope.
Local Open Scope Q_scope.

(** One call of [getRouteDetails]: an exception, or route details with
    their [distance] and [duration]. *)
Inductive RouteCall : Type :=
  | RouteRaised
  | RouteAnswered (distance duration : Q).

Inductive RouteOutcome : Type :=
  | Route (distance duration : Q) (calls : nat)
  | GaveUp (calls : nat)
  | LeftLoop (routeDetails : option (Q * Q)) (calls : nat)
  | Looping.

Definition maxRetries : nat := 3.

(** Truthiness of a number. *)
Definition truthy (x : Q) : bool := negb (Qeq_bool x 0).

(** An answer the loop cannot use: a distance or a duration of zero. *)
Definition unusable (c : RouteCall) : Prop :=
  match c with
  | RouteAnswered distance duration => truthy distance && truthy duration = false
  | RouteRaised => False
  end.

(** [while (retryCount < maxRetries) { try { .. break } catch { .. } }],
    after [calls] calls. *)
Fixpoint route_loop (fuel : nat) (answers : nat -> RouteCall)
    (calls retryCount : nat) (routeDetails : option (Q * Q)) : RouteOutcome :=
  match fuel with
  | O => Looping
  | S fuel =>
      if (retryCount <? maxRetries)%nat then
        match answers calls with
        | RouteAnswered distance duration =>
            if truthy distance && truthy duration
            then Route distance duration (S calls)
            else route_loop fuel answers (S calls) retryCount
                   (Some (distance, duration))
        | RouteRaised =>
            let retryCount := S retryCount in
            if (retryCount =? maxRetries)%nat then GaveUp (S calls)
            else route_loop fuel answers (S calls) retryCount routeDetails
        end
      else LeftLoop routeDetails calls
  end.

(** What [createRide] has after the loop and the fare lines: [None] while
    the loop runs, an error message, or [finalFare] with the number of
    calls made. *)
Definition createRide_fare (fuel : nat) (answers : nat -> RouteCall)
    (vehicleType : Fare.VehicleType) (currentHour : Z)
    : option (string + Z * nat) :=
  match route_loop fuel answers 0 0 None with
  | Looping => None
  | GaveUp _ =>
      Some (inl "Failed to calculate route details after multiple attempts")
  | LeftLoop None _ =>
      Some (inl "Cannot read properties of undefined (reading 'distance')")
  | LeftLoop (Some (distance, duration)) calls
  | Route distance duration calls =>
      Some (inr (Fare.createRide_finalFare vehicleType distance duration
                   currentHour, calls))
  end.

End CreateRide.

(* ===================================================================== *)
(** * Part II: statements                                                 *)
(* ===================================================================== *)

Module FareFacts.
Import Fare.
Local Open Scope Z_scope.

Lemma Math_round_inject_div10 (n : Z) :
  Math_round (inject_Z n / 10) = (n + 5) / 10.
Proof.
  unfold Math_round.
  assert (E : (inject_Z n / 10 + (1 # 2) == (2 * n + 10) # 20)%Q).
  { unfold Qeq, Qdiv, Qplus, Qmult, Qinv, inject_Z; simpl. lia. }
  rewrite E. unfold Qfloor.
  replace (2 * n + 10) with ((n + 5) * 2) by lia.
  change (Z.pos 20) with (10 * 2).
  rewrite Z.div_mul_cancel_r; lia.
Qed.

Lemma baseFare_cases (t : VehicleType) :
  baseFare t = 30 \/ baseFare t = 50 \/ baseFare t = 20.
Proof. destruct t; simpl; lia. Qed.

(** The limits of [getFare] send every integer into the band of the class
    and onto a multiple of 10. *)
Lemma getFare_limits_range (t : VehicleType) (fare : Z) :
  2 * baseFare t <= getFare_limits t fare <= 10 * baseFare t
  /\ getFare_limits t fare mod 10 = 0.
Proof.
  unfold getFare_limits. cbv zeta. rewrite Math_round_inject_div10.
  split; [| apply Z.mod_mul; lia].
  set (c := Z.min (Z.max fare (baseFare t * 2)) (baseFare t * 10)).
  assert (Hc : baseFare t * 2 <= c <= baseFare t * 10)
    by (unfold c; destruct (baseFare_cases t) as [E | [E | E]]; rewrite E; lia).
  destruct (baseFare_cases t) as [E | [E | E]]; rewrite E in *;
    pose proof (Z.div_le_mono _ _ 10 ltac:(lia) (proj1 (Z.add_le_mono_r _ _ 5) (proj1 Hc)));
    pose proof (Z.div_le_mono _ _ 10 ltac:(lia) (proj1 (Z.add_le_mono_r _ _ 5) (proj2 Hc)));
    simpl in *;
    match goal with
    | H1 : ?a / 10 <= _, H2 : _ <= ?b / 10 |- _ =>
        let va := eval vm_compute in (a / 10) in
        let vb := eval vm_compute in (b / 10) in
        change (a / 10) with va in H1; change (b / 10) with vb in H2
    end; lia.
Qed.

End FareFacts.

Module FareProps.
Import Fare FareFacts.
Local Open Scope Z_scope.

(** Every per-class amount of a [getFare] result lies in the band of its
    class and is a multiple of 10. *)
Lemma getFare_amount_range (t : VehicleType) (distance duration : Q)
    (currentHour : Z) :
  let amount := data (getFare distance duration currentHour) t in
  2 * baseFare t <= amount <= 10 * baseFare t /\ amount mod 10 = 0.
Proof. simpl. apply getFare_limits_range. Qed.

(** [finalFare] of [createRide] lies in the band of its class. *)
Lemma createRide_finalFare_range (t : VehicleType) (distance duration : Q)
    (currentHour : Z) :
  2 * baseFare t <= createRide_finalFare t distance duration currentHour
                 <= 10 * baseFare t.
Proof.
  unfold createRide_finalFare. cbv zeta.
  destruct (baseFare_cases t) as [E | [E | E]]; rewrite E; lia.
Qed.

(** C3.  A car ride of 3000 m and 600 s requested at noon: [createRide]
    stores [fare.amount = 125], inside the band [100, 500] of the class but
    not a multiple of 10, while [getFare] quotes 130 for the same distance,
    duration and hour. *)
Theorem createRide_amount_not_multiple_of_10 :
  createRide_finalFare car 3000 600 12 = 125
  /\ 125 mod 10 <> 0
  /\ 2 * baseFare car <= 125 <= 10 * baseFare car
  /\ data (getFare 3000 600 12) car = 130.
Proof. repeat split; vm_compute; congruence. Qed.

Lemma Math_max_floor (x m : Q) : (m <= Math_max x m)%Q /\ (x <= Math_max x m)%Q.
Proof.
  unfold Math_max. destruct (Qle_bool x m) eqn:E.
  - apply Qle_bool_iff in E. split; [apply Qle_refl | exact E].
  - split; [| apply Qle_refl].
    destruct (Qlt_le_dec m x) as [H | H]; [apply Qlt_le_weak, H |].
    apply Qle_bool_iff in H. congruence.
Qed.

(** [createRide] applies the formula to the floored distance and duration:
    at least 1 km and at least 5 min. *)
Lemma createRide_formula_floors (t : VehicleType) (distance duration s : Q) :
  exists km min : Q,
    (1 <= km)%Q /\ (distance / 1000 <= km)%Q
    /\ (5 <= min)%Q /\ (duration / 60 <= min)%Q
    /\ createRide_formula t distance duration s
       = Math_round ((inject_Z (baseFare t) + km * perKmRate t
                      + min * perMinuteRate t) * s).
Proof.
  exists (Math_max (distance / 1000) 1), (Math_max (duration / 60) 5).
  pose proof (Math_max_floor (distance / 1000) 1) as [? ?].
  pose proof (Math_max_floor (duration / 60) 5) as [? ?].
  repeat split; assumption.
Qed.

(** C4.  A car trip of 100 m and 30 s at 8 o'clock: [getFare] feeds the raw
    0.1 km and 0.5 min to the formula (80 before the limits, quote 100),
    where the floors of 1 km and 5 min give 120, the value [createRide]
    computes for the same trip. *)
Theorem getFare_applies_no_floor :
  getFare_formula car 100 30 (surge 8) = 80
  /\ data (getFare 100 30 8) car = 100
  /\ createRide_formula car 100 30 (surge 8) = 120
  /\ spec_quote car 100 30 8 = 120.
Proof. repeat split; vm_compute; reflexivity. Qed.

End FareProps.

Module OtpProps.
Import Otp.
Local Open Scope Z_scope.

Lemma isDigit_digitChar (d : Z) : 0 <= d < 10 -> isDigit (digitChar d) = true.
Proof.
  intros H.
  assert (C : d = 0 \/ d = 1 \/ d = 2 \/ d = 3 \/ d = 4 \/ d = 5 \/ d = 6
              \/ d = 7 \/ d = 8 \/ d = 9) by lia.
  repeat (destruct C as [-> | C]; [reflexivity |]). subst d. reflexivity.
Qed.

(** A number of [k + 1] decimal digits is printed as [k + 1] digit
    characters in front of the accumulator, given enough fuel. *)
Lemma digits_spec (k : nat) :
  forall (fuel : nat) (n : Z) (acc : string),
    10 ^ Z.of_nat k <= n < 10 ^ (Z.of_nat k + 1) -> (k < fuel)%nat ->
    String.length (digits fuel n acc) = (S k + String.length acc)%nat
    /\ (allDigits acc = true -> allDigits (digits fuel n acc) = true).
Proof.
  induction k as [| k IH]; intros fuel n acc Hn Hf;
    (destruct fuel as [| fuel]; [lia |]); simpl digits.
  - change (10 ^ Z.of_nat 0) with 1 in Hn. change (10 ^ (Z.of_nat 0 + 1)) with 10 in Hn.
    rewrite Z.div_small by lia. simpl.
    split; [reflexivity |]. intros ->.
    rewrite isDigit_digitChar; [reflexivity |]. apply Z.mod_pos_bound; lia.
  - assert (Hq : 10 ^ Z.of_nat k <= n / 10 < 10 ^ (Z.of_nat k + 1)).
    { rewrite Nat2Z.inj_succ, !Z.add_1_r in Hn. rewrite Z.add_1_r.
      rewrite !Z.pow_succ_r in Hn by lia. rewrite Z.pow_succ_r by lia.
      split.
      - apply Z.div_le_lower_bound; lia.
      - apply Z.div_lt_upper_bound; lia. }
    assert (0 < 10 ^ Z.of_nat k) by (apply Z.pow_pos_nonneg; lia).
    destruct (Z.eqb_spec (n / 10) 0) as [E | _]; [lia |].
    destruct (IH fuel (n / 10) (String (digitChar (n mod 10)) acc) Hq ltac:(lia))
      as [Hl Hd].
    split.
    + rewrite Hl. simpl. lia.
    + intros Ha. apply Hd. simpl. rewrite Ha.
      rewrite isDigit_digitChar; [reflexivity |]. apply Z.mod_pos_bound; lia.
Qed.

Lemma toString_six_digits (n : Z) :
  100000 <= n <= 999999 ->
  String.length (toString n) = 6%nat /\ allDigits (toString n) = true.
Proof.
  intros Hn. unfold toString.
  destruct (Z.ltb_spec n 0) as [? | _]; [lia |].
  pose proof (Z.log2_le_mono 100000 n ltac:(lia)) as Hlog.
  change (Z.log2 100000) with 16 in Hlog.
  destruct (digits_spec 5 (S (Z.to_nat (Z.log2 n))) n "") as [Hl Hd].
  - change (10 ^ Z.of_nat 5) with 100000.
    change (10 ^ (Z.of_nat 5 + 1)) with 1000000. lia.
  - lia.
  - split; [exact Hl | apply Hd; reflexivity].
Qed.

Lemma randomInt_six_range (draw : N) :
  100000 <= 100000 + Z.of_N draw mod 900000 <= 999999.
Proof. pose proof (Z.mod_pos_bound (Z.of_N draw) 900000 ltac:(lia)). lia. Qed.

(** Every code of the range is drawn for some entropy. *)
Lemma generateOTP_reaches (n : Z) :
  100000 <= n <= 999999 ->
  generateOTP (Z.to_N (n - 100000)) 6 = Ok (toString n).
Proof.
  intros Hn. unfold generateOTP, Math_pow10, crypto_randomInt. simpl.
  rewrite Z2N.id by lia. rewrite Z.mod_small by lia.
  f_equal. f_equal. lia.
Qed.

Lemma digitValue_digitChar (d : Z) : 0 <= d < 10 -> digitValue (digitChar d) = d.
Proof.
  intros H.
  assert (C : d = 0 \/ d = 1 \/ d = 2 \/ d = 3 \/ d = 4 \/ d = 5 \/ d = 6
              \/ d = 7 \/ d = 8 \/ d = 9) by lia.
  repeat (destruct C as [-> | C]; [reflexivity |]). subst d. reflexivity.
Qed.

(** Reading back what [digits] printed in front of the accumulator. *)
Lemma decimal_digits (k : nat) :
  forall (fuel : nat) (n a : Z) (acc : string),
    10 ^ Z.of_nat k <= n < 10 ^ (Z.of_nat k + 1) -> (k < fuel)%nat ->
    decimal_from a (digits fuel n acc)
    = decimal_from (a * 10 ^ (Z.of_nat k + 1) + n) acc.
Proof.
  induction k as [| k IH]; intros fuel n a acc Hn Hf;
    (destruct fuel as [| fuel]; [lia |]); simpl digits.
  - change (10 ^ Z.of_nat 0) with 1 in Hn.
    change (10 ^ (Z.of_nat 0 + 1)) with 10 in *.
    rewrite Z.div_small by lia. simpl.
    rewrite Z.mod_small, digitValue_digitChar by lia. f_equal. lia.
  - assert (Hq : 10 ^ Z.of_nat k <= n / 10 < 10 ^ (Z.of_nat k + 1)).
    { rewrite Nat2Z.inj_succ, !Z.add_1_r in Hn. rewrite Z.add_1_r.
      rewrite !Z.pow_succ_r in Hn by lia. rewrite Z.pow_succ_r by lia.
      split.
      - apply Z.div_le_lower_bound; lia.
      - apply Z.div_lt_upper_bound; lia. }
    assert (0 < 10 ^ Z.of_nat k) by (apply Z.pow_pos_nonneg; lia).
    destruct (Z.eqb_spec (n / 10) 0) as [E | _]; [lia |].
    rewrite (IH fuel (n / 10) a _ Hq ltac:(lia)). simpl decimal_from.
    rewrite digitValue_digitChar by (apply Z.mod_pos_bound; lia).
    f_equal. rewrite Nat2Z.inj_succ, (Z.add_1_r (Z.succ _)).
    rewrite (Z.pow_succ_r 10 (Z.succ (Z.of_nat k))) by lia.
    rewrite <- (Z.add_1_r (Z.of_nat k)).
    pose proof (Z.div_mod n 10 ltac:(lia)). lia.
Qed.

(** A code of six digits reads back as the number it prints. *)
Lemma decimal_toString (n : Z) :
  100000 <= n <= 999999 -> decimal (toString n) = n.
Proof.
  intros Hn. unfold decimal, toString.
  destruct (Z.ltb_spec n 0) as [? | _]; [lia |].
  pose proof (Z.log2_le_mono 100000 n ltac:(lia)) as Hlog.
  change (Z.log2 100000) with 16 in Hlog.
  rewrite (decimal_digits 5).
  - reflexivity.
  - change (10 ^ Z.of_nat 5) with 100000.
    change (10 ^ (Z.of_nat 5 + 1)) with 1000000. lia.
  - lia.
Qed.

(** What [crypto.randomInt(100000, 1000000)] returns on a draw. *)
Lemma randomInt_six (draw : N) :
  crypto_randomInt draw 100000 1000000
  = Some (100000 + Z.of_N draw mod 900000).
Proof. reflexivity. Qed.

(** C9.  [generateOTP(6)] and [getOtp(6)] return the decimal print of the
    number [crypto.randomInt(100000, 1000000)] returns on the entropy
    [draw] it consumes from Node's cryptographic generator, and of nothing
    else.  Whatever is drawn, that number lies between 100000 and 999999,
    its print is a string of exactly six decimal digits which reads back as
    the number and which the [otp] validator of the ride schema accepts.
    Every number of the range is returned for some draw, and different
    numbers are printed as different codes: all 900000 codes can result. *)
Theorem otp_six_decimal_digits :
  (forall draw : N,
      exists n : Z,
        crypto_randomInt draw 100000 1000000 = Some n
        /\ generateOTP draw 6 = Ok (toString n)
        /\ getOtp draw 6 = Some (toString n)
        /\ 100000 <= n <= 999999
        /\ String.length (toString n) = 6%nat
        /\ allDigits (toString n) = true
        /\ otp_validator (toString n) = true
        /\ decimal (toString n) = n)
  /\ (forall n : Z,
        100000 <= n <= 999999 ->
        exists draw : N,
          crypto_randomInt draw 100000 1000000 = Some n
          /\ generateOTP draw 6 = Ok (toString n)
          /\ getOtp draw 6 = Some (toString n))
  /\ (forall n m : Z,
        100000 <= n <= 999999 -> 100000 <= m <= 999999 ->
        toString n = toString m -> n = m).
Proof.
  split; [| split].
  - intros draw. pose proof (randomInt_six_range draw) as Hr.
    destruct (toString_six_digits _ Hr) as [Hl Hd].
    exists (100000 + Z.of_N draw mod 900000).
    split; [apply randomInt_six |]. split; [reflexivity |].
    split; [reflexivity |]. split; [exact Hr |]. split; [exact Hl |].
    split; [exact Hd |].
    split; [unfold otp_validator; rewrite Hl, Hd; reflexivity |].
    apply decimal_toString, Hr.
  - intros n Hn. exists (Z.to_N (n - 100000)).
    assert (E : crypto_randomInt (Z.to_N (n - 100000)) 100000 1000000 = Some n).
    { rewrite randomInt_six, Z2N.id by lia. rewrite Z.mod_small by lia.
      f_equal. lia. }
    split; [exact E |].
    split; [apply generateOTP_reaches, Hn |].
    unfold getOtp, Math_pow10. simpl.
    rewrite Z2N.id by lia.
    change (10 ^ (6 - 1)) with 100000. change (1000000 - 100000) with 900000.
    rewrite Z.mod_small by lia. do 2 f_equal. lia.
  - intros n m Hn Hm E.
    rewrite <- (decimal_toString n Hn), <- (decimal_toString m Hm), E.
    reflexivity.
Qed.

End OtpProps.

Module DispatchProps.
Import Dispatch.
Local Open Scope string_scope.
Local Open Scope Z_scope.

(** Unfold the plumbing of a computation. *)
Ltac run :=
  unfold rethrow, bind, ret, throw, rideModel_findOne, rideModel_findById,
    ride_save, captainModel_findById, captainModel_findByIdAndUpdate,
    update_ride_captain, assign_status in *;
  cbn [fst snd rides captains] in *.

(** The two outcomes of the validation of a save. *)
Ltac save_cases :=
  match goal with
  | |- context [estimate_in_future ?n ?r] =>
      destruct (estimate_in_future n r) eqn:?
  | |- context [Z.ltb ?a ?b] => destruct (Z.ltb a b) eqn:?
  end; cbn.

(** C7.  [cancelRide] on a ride that is completed or already cancelled
    throws, and both collections are what they were: the lookup accepts only
    rides that are requested or accepted. *)
Theorem cancelRide_terminal_fails (w : World) (now : Z) (rideId userId : N)
    (reason : option string) (ride : Ride) :
  rides w !! rideId = Some ride ->
  status ride = COMPLETED \/ status ride = CANCELLED ->
  cancelRide now rideId userId reason w
  = (inl "Failed to cancel ride: Ride not found or cannot be cancelled", w).
Proof.
  intros Hr Hs. unfold cancelRide. run. rewrite Hr.
  destruct Hs as [-> | ->]; cbn; rewrite andb_false_r; reflexivity.
Qed.

Lemma cancelRide_terminal_fails_witness :
  cancelRide 2000 1 10 (Some "changed my mind")
    (sample_world (Some 7%N) COMPLETED true)
  = (inl "Failed to cancel ride: Ride not found or cannot be cancelled",
     sample_world (Some 7%N) COMPLETED true).
Proof.
  apply (cancelRide_terminal_fails (sample_world (Some 7%N) COMPLETED true) 2000
           1 10 (Some "changed my mind") (sample_ride (Some 7%N) COMPLETED)).
  - reflexivity.
  - left. reflexivity.
Defined.

Lemma strict_neq_of_differs (s : string) (v : jsval) :
  v <> str s -> strict_neq s v = true.
Proof.
  intros H. destruct v as [| | b | z | t]; try reflexivity. simpl.
  destruct (String.eqb_spec s t) as [-> | _]; [congruence | reflexivity].
Qed.

Lemma strict_neq_differs (s : string) (v : jsval) :
  strict_neq s v = true <-> v <> str s.
Proof.
  split; [| apply strict_neq_of_differs].
  intros H ->. simpl in H. rewrite String.eqb_refl in H. discriminate.
Qed.

(** A ride that is requested and unassigned, a wrong code: [startRide]
    fails, but with the error of its lookup, not with the invalid-code one. *)
Lemma startRide_requested_other_error :
  str "000000" <> str (otp (sample_ride None REQUESTED))
  /\ startRide 2000 1 (str "000000") 7 (sample_world None REQUESTED true)
     = (inl "Failed to start ride: Ride not found or not in correct state",
        sample_world None REQUESTED true)
  /\ "Failed to start ride: Ride not found or not in correct state"
     <> "Failed to start ride: Invalid OTP".
Proof. repeat split; [discriminate | discriminate]. Qed.

(** C6 (amended).  A supplied code that is not exactly the stored one makes
    [startRide] throw and leaves both collections as they were: the error is
    the invalid-code one when the ride is accepted and assigned to the calling
    captain, and the one of the lookup for every other ride. *)
Theorem startRide_wrong_code (w : World) (now : Z) (rideId captain_id : N)
    (supplied : jsval) (ride : Ride) :
  rides w !! rideId = Some ride ->
  supplied <> str (otp ride) ->
  startRide now rideId supplied captain_id w
  = (inl (if captain_is ride captain_id && Status_eqb (status ride) ACCEPTED
          then "Failed to start ride: Invalid OTP"
          else "Failed to start ride: Ride not found or not in correct state"),
     w).
Proof.
  intros Hr Hs. unfold startRide. run. rewrite Hr.
  destruct (captain_is ride captain_id && Status_eqb (status ride) ACCEPTED);
    [rewrite (strict_neq_of_differs _ _ Hs) |]; reflexivity.
Qed.

Lemma startRide_wrong_code_witness :
  startRide 2000 1 (str "000000") 7 (sample_world (Some 7%N) ACCEPTED false)
  = (inl "Failed to start ride: Invalid OTP",
     sample_world (Some 7%N) ACCEPTED false).
Proof.
  apply (startRide_wrong_code (sample_world (Some 7%N) ACCEPTED false) 2000 1 7
           (str "000000") (sample_ride (Some 7%N) ACCEPTED)).
  - reflexivity.
  - discriminate.
Defined.

(** [endRide] writes the ride collection only. *)
Lemma endRide_keeps_captains (w : World) (now : Z) (rideId captain_id : N)
    (paymentMethod : option string) (tip : option Z) :
  captains (snd (endRide now rideId captain_id paymentMethod tip w)) = captains w.
Proof.
  unfold endRide. run.
  destruct (rides w !! rideId) as [r |]; [| reflexivity].
  destruct (captain_is r captain_id && Status_eqb (status r) IN_PROGRESS);
    [| reflexivity].
  destruct (estimate_in_future now _); reflexivity.
Qed.

(** [endRide] on an in-progress ride of the calling captain, while the
    arrival estimate of the ride is in the future, completes it and stamps
    the end time. *)
Lemma endRide_completes (w : World) (now : Z) (rideId captain_id : N)
    (paymentMethod : option string) (tip : option Z) (ride : Ride) :
  rides w !! rideId = Some ride ->
  captain ride = Some captain_id -> status ride = IN_PROGRESS ->
  estimate_in_future now ride = true ->
  let done := with_actualEndTime (with_status ride COMPLETED) (Some now) in
  endRide now rideId captain_id paymentMethod tip w
  = (inr done, mkWorld (<[rideId := done]> (rides w)) (captains w)).
Proof.
  intros Hr Hc Hs He. unfold endRide. run. rewrite Hr.
  unfold captain_is. rewrite Hc, Hs, N.eqb_refl. cbn.
  change (estimate_in_future now
            (with_actualEndTime (with_status ride COMPLETED) (Some now)))
    with (estimate_in_future now ride).
  rewrite He. reflexivity.
Qed.

(** C5.  Ride 1 is in progress with captain 7, whose flag is false.
    [endRide] completes the ride and stamps [actualEndTime], and the flag of
    captain 7 is still false afterwards; the [completed] case of the
    ['ride:status'] handler, run on the same collections, sets it to true. *)
Theorem endRide_leaves_captain_unavailable :
  let w := sample_world (Some 7%N) IN_PROGRESS false in
  let done := with_actualEndTime (sample_ride (Some 7%N) COMPLETED) (Some 2000) in
  fst (endRide 2000 1 7 (Some "cash") None w) = inr done
  /\ rides (snd (endRide 2000 1 7 (Some "cash") None w)) !! 1%N = Some done
  /\ available w 7 = Some false
  /\ available (snd (endRide 2000 1 7 (Some "cash") None w)) 7 = Some false
  /\ available (snd (on_ride_status captain7 2000 (Some 1%N) "completed"
                       (Some no_data) w)) 7 = Some true.
Proof. repeat split. Qed.

(** *** The transition table *)

Lemma status_of_name_name (s : Status) : status_of_name (status_name s) = Some s.
Proof. destruct s; reflexivity. Qed.

Lemma status_of_name_Some (name : string) (s : Status) :
  status_of_name name = Some s -> name = status_name s.
Proof.
  unfold status_of_name.
  repeat match goal with
         | |- context [String.eqb name ?c] =>
             destruct (String.eqb_spec name c) as [-> | _];
             [intros [= <-]; reflexivity |]
         end.
  discriminate.
Qed.

(** The table of the source accepts exactly the named edges. *)
Lemma includes_table (s : Status) (name : string) :
  includes (validTransitions s) name = true
  <-> exists s', status_of_name name = Some s' /\ edge s s' = true.
Proof.
  split.
  - destruct s; simpl;
      repeat match goal with
             | |- context [String.eqb name ?c] =>
                 destruct (String.eqb_spec name c) as [-> | _];
                 [intros _; eexists; split; reflexivity |]
             end; cbn; discriminate.
  - intros (s' & Hn & He). apply status_of_name_Some in Hn. subst name.
    destruct s, s'; try discriminate; reflexivity.
Qed.




(** Case analysis on the tests a handler makes. *)
Ltac handler_cases :=
  repeat match goal with
         | |- context [UserType_eqb (type ?u) Captain] => destruct (type u); cbn
         | |- context [match ?d with Some _ => _ | None => _ end] =>
             destruct d; cbn
         | |- context [if ?b then _ else _] => destruct b; cbn
         end.








(** *** The code check of the in-progress transition *)

(** A captain asks for in-progress on a ride that is on its way, with a
    [data] object.  In both handlers the stored code is compared only with
    a truthy [data.otp]: the request is refused as an invalid code exactly
    when [data.otp] is truthy and is not the stored code, and nothing is
    written then.  In every other case, in particular without any [otp],
    the ride is stored in progress with its arrival time stamped if its
    arrival estimate is still in the future, and the save is refused, with
    nothing written, if it is not. *)
Lemma in_progress_code_check (w : World) (u : Requester)
    (now : Z) (rideId : N) (d : StatusData) (ride : Ride) :
  rides w !! rideId = Some ride ->
  status ride = ON_THE_WAY ->
  type u = Captain ->
  let started := with_actualArrivalTime (with_status ride IN_PROGRESS) (Some now) in
  let w' := mkWorld (<[rideId := started]> (rides w)) (captains w) in
  let socket := on_ride_status u now (Some rideId) "in-progress" (Some d) w in
  let http := updateRideStatus u now rideId "in-progress" (Some d) w in
  (truthy (data_otp d) = true /\ data_otp d <> str (otp ride) ->
   socket = (inl "Invalid OTP", w)
   /\ http = (mkResponse 400 false "Invalid OTP", w))
  /\ (truthy (data_otp d) = false \/ data_otp d = str (otp ride) ->
      estimate_in_future now ride = true ->
      socket = (inr tt, w')
      /\ http = (mkResponse 200 true "Ride status updated successfully", w'))
  /\ (truthy (data_otp d) = false \/ data_otp d = str (otp ride) ->
      estimate_in_future now ride = false ->
      socket = (inl estimate_not_in_future, w)
      /\ http = (error_updating, w))
  /\ (fst socket = inl "Invalid OTP"
      <-> truthy (data_otp d) = true /\ data_otp d <> str (otp ride))
  /\ (fst http = mkResponse 400 false "Invalid OTP"
      <-> truthy (data_otp d) = true /\ data_otp d <> str (otp ride)).
Proof.
  intros Hr Hs Hu started w' socket http.
  assert (Hsock : socket
                  = if truthy (data_otp d) && strict_neq (otp ride) (data_otp d)
                    then (inl "Invalid OTP", w)
                    else if estimate_in_future now ride then (inr tt, w')
                         else (inl estimate_not_in_future, w)).
  { unfold socket, on_ride_status, ride_status_switch. run. cbn.
    rewrite Hr, Hs. cbn. rewrite Hu. cbn.
    destruct (truthy (data_otp d) && strict_neq (otp ride) (data_otp d));
      [reflexivity |].
    change (estimate_in_future now
              (with_actualArrivalTime (with_status ride IN_PROGRESS) (Some now)))
      with (estimate_in_future now ride).
    destruct (estimate_in_future now ride); reflexivity. }
  assert (Hhttp : http
                  = if truthy (data_otp d) && strict_neq (otp ride) (data_otp d)
                    then (mkResponse 400 false "Invalid OTP", w)
                    else if estimate_in_future now ride
                         then (mkResponse 200 true
                                 "Ride status updated successfully", w')
                         else (error_updating, w)).
  { unfold http, updateRideStatus, updateRideStatus_switch. run.
    rewrite Hr, Hs. cbn. rewrite Hu. cbn.
    destruct (truthy (data_otp d) && strict_neq (otp ride) (data_otp d));
      [reflexivity |].
    change (estimate_in_future now
              (with_actualArrivalTime (with_status ride IN_PROGRESS) (Some now)))
      with (estimate_in_future now ride).
    destruct (estimate_in_future now ride); reflexivity. }
  rewrite Hsock, Hhttp. clear Hsock Hhttp.
  pose proof (strict_neq_differs (otp ride) (data_otp d)) as Hd.
  destruct (truthy (data_otp d)); destruct (strict_neq (otp ride) (data_otp d));
    destruct (estimate_in_future now ride);
    cbn; intuition (try discriminate; try congruence).
Qed.

(** A request for in-progress that carries no [data] object at all is
    refused by both handlers, which read [data.otp] unguarded, and nothing
    is written. *)
Lemma in_progress_without_data (w : World) (u : Requester) (now : Z)
    (rideId : N) (ride : Ride) :
  rides w !! rideId = Some ride ->
  status ride = ON_THE_WAY ->
  type u = Captain ->
  on_ride_status u now (Some rideId) "in-progress" None w
  = (inl "Cannot read properties of undefined (reading 'otp')", w)
  /\ updateRideStatus u now rideId "in-progress" None w = (error_updating, w).
Proof.
  intros Hr Hs Hu. split.
  - unfold on_ride_status, ride_status_switch. run. cbn.
    rewrite Hr, Hs. cbn. rewrite Hu. reflexivity.
  - unfold updateRideStatus, updateRideStatus_switch. run.
    rewrite Hr, Hs. cbn. rewrite Hu. reflexivity.
Qed.

(** C10.  Captain 7 accepts ride 1 at clock 2000 and reports being on the
    way at 3000, which sets the arrival estimate to 903000 (15 minutes
    later).  Asked for in-progress without a code:
    - at 4000, with a [data] object, both handlers store the ride in
      progress, and with the wrong code 000000 they answer 'Invalid OTP';
    - at 1000000, after the estimate, both handlers refuse (the validation
      error of the save; status 500) and the ride stays on its way;
    - at 4000, with no [data] object, both handlers refuse (the [TypeError]
      of [data.otp]; status 500) and the ride stays on its way. *)
Theorem in_progress_without_code_refused :
  let w0 := sample_world None REQUESTED true in
  let w1 := snd (on_ride_status captain7 2000 (Some 1%N) "accepted" None w0) in
  let w := snd (on_ride_status captain7 3000 (Some 1%N) "on-the-way" None w1) in
  let on_its_way := mkRide 10 (Some 7%N) ON_THE_WAY "482913" (Some 903000)
                           None None None in
  let started := with_actualArrivalTime (with_status on_its_way IN_PROGRESS)
                                        (Some 4000) in
  let wrong := mkStatusData (str "000000") None in
  w = mkWorld {[ 1%N := on_its_way ]}
              {[ 7%N := mkCaptainDoc (Some "sock-7") false 2000 ]}
  /\ on_ride_status captain7 4000 (Some 1%N) "in-progress" (Some no_data) w
     = (inr tt, mkWorld {[ 1%N := started ]} (captains w))
  /\ updateRideStatus captain7 4000 1 "in-progress" (Some no_data) w
     = (mkResponse 200 true "Ride status updated successfully",
        mkWorld {[ 1%N := started ]} (captains w))
  /\ on_ride_status captain7 4000 (Some 1%N) "in-progress" (Some wrong) w
     = (inl "Invalid OTP", w)
  /\ updateRideStatus captain7 4000 1 "in-progress" (Some wrong) w
     = (mkResponse 400 false "Invalid OTP", w)
  /\ on_ride_status captain7 1000000 (Some 1%N) "in-progress" (Some no_data) w
     = (inl estimate_not_in_future, w)
  /\ updateRideStatus captain7 1000000 1 "in-progress" (Some no_data) w
     = (error_updating, w)
  /\ on_ride_status captain7 4000 (Some 1%N) "in-progress" None w
     = (inl "Cannot read properties of undefined (reading 'otp')", w)
  /\ updateRideStatus captain7 4000 1 "in-progress" None w
     = (error_updating, w).
Proof. repeat split. Qed.

(** *** The availability flag *)

Lemma available_alter (r : gmap N Ride) (m : gmap N CaptainDoc)
    (f : CaptainDoc -> CaptainDoc) (c : N) (b : bool) :
  is_Some (m !! c) -> (forall d, isAvailable (f d) = b) ->
  available (mkWorld r (alter f c m)) c = Some b.
Proof.
  intros [d Hd] Hf. unfold available. cbn.
  rewrite lookup_alter_eq, Hd. cbn. f_equal. apply Hf.
Qed.

Lemma on_disconnect_flag (w : World) (c : N) (now : Z) :
  is_Some (captains w !! c) ->
  available (snd (on_disconnect (mkRequester c Captain) now w)) c = Some false.
Proof. intros H. unfold on_disconnect. run. cbn. apply available_alter; auto. Qed.

Lemma io_use_captain_flag (w : World) (c : N) (now : Z) (socket_id : string) :
  is_Some (captains w !! c) ->
  fst (io_use_captain now socket_id c w) = inr tt
  /\ available (snd (io_use_captain now socket_id c w)) c = Some true.
Proof.
  intros H. unfold io_use_captain. run. destruct H as [d Hd]. rewrite Hd. cbn.
  split; [reflexivity |]. apply available_alter; eauto.
Qed.

Lemma on_ride_status_accept_flag (w w' : World) (u : Requester) (now : Z)
    (rideId : option N) (data : option StatusData) :
  on_ride_status u now rideId "accepted" data w = (inr tt, w') ->
  is_Some (captains w !! id u) ->
  available w' (id u) = Some false.
Proof.
  unfold on_ride_status, ride_status_switch. run.
  destruct rideId as [rid |]; [| discriminate]. cbn.
  destruct (rides w !! rid) as [ride |]; [| discriminate].
  destruct (status ride); cbn; try discriminate.
  destruct (type u); cbn; try discriminate.
  destruct (estimate_in_future now _); cbn; [| discriminate].
  intros [= <-] H. apply available_alter; auto.
Qed.

Lemma updateRideStatus_accept_flag (w w' : World) (u : Requester) (now : Z)
    (rideId : N) (data : option StatusData) (response : Response) :
  updateRideStatus u now rideId "accepted" data w = (response, w') ->
  statusCode response = 200 ->
  is_Some (captains w !! id u) ->
  available w' (id u) = Some false.
Proof.
  unfold updateRideStatus, updateRideStatus_switch. run. cbn.
  destruct (rides w !! rideId) as [ride |]; [| intros [= <- <-]; discriminate].
  destruct (status ride); cbn; try (intros [= <- <-]; discriminate).
  destruct (type u); cbn; try (intros [= <- <-]; discriminate).
  destruct (estimate_in_future now _); cbn; [| intros [= <- <-]; discriminate].
  intros [= <- <-] _ H. apply available_alter; auto.
Qed.

Lemma confirmRide_flag (w w' : World) (now : Z) (rideId c : N) (ride : Ride) :
  confirmRide now rideId c w = (inr ride, w') ->
  available w' c = Some false.
Proof.
  unfold confirmRide. run.
  destruct (rides w !! rideId) as [r |]; [| discriminate].
  destruct (Status_eqb (status r) REQUESTED); [| discriminate].
  destruct (captains w !! c) as [doc |] eqn:Hc; [| discriminate].
  destruct (isAvailable doc); cbn; [| discriminate].
  save_cases; [| discriminate].
  intros [= <- <-]. apply available_alter; [rewrite Hc |]; eauto.
Qed.

Lemma confirmRide_controller_flag (w w' : World) (now : Z) (rideId c : N)
    (data : option Ride) :
  confirmRide_controller now rideId c w = (inr data, w') ->
  available w' c = Some false.
Proof.
  unfold confirmRide_controller, answer_error. run.
  destruct (captains w !! c) as [doc |] eqn:Hc; [| discriminate].
  destruct (isAvailable doc); cbn; [| discriminate].
  destruct (confirmRide now rideId c w) as [[message | ride] w1] eqn:E;
    [discriminate |].
  intros [= _ <-]. cbn.
  pose proof (confirmRide_flag w w1 now rideId c ride E) as Hf.
  unfold available in *. cbn. rewrite lookup_alter_eq.
  destruct (captains w1 !! c) as [doc1 |]; [reflexivity | discriminate].
Qed.

Lemma updateAvailability_flag (w : World) (c : N) (isAvailable : bool) :
  is_Some (captains w !! c) ->
  fst (updateAvailability c (Some isAvailable) true w)
  = AvailabilityUpdated isAvailable
  /\ available (snd (updateAvailability c (Some isAvailable) true w)) c
     = Some isAvailable.
Proof.
  intros [doc Hc]. unfold updateAvailability. rewrite Hc. cbn.
  split; [reflexivity |]. unfold available. cbn.
  rewrite lookup_insert_eq. reflexivity.
Qed.

Lemma updateAvailability_refused (w : World) (c : N)
    (isAvailable : option bool) (valid : bool) :
  isAvailable = None \/ valid = false ->
  snd (updateAvailability c isAvailable valid w) = w.
Proof.
  intros H. unfold updateAvailability.
  destruct (captains w !! c) as [doc |]; [| reflexivity].
  destruct isAvailable as [b |]; [| reflexivity].
  destruct H as [H | ->]; [discriminate | reflexivity].
Qed.

Lemma on_ride_status_release_flag (w w' : World) (u : Requester) (now : Z)
    (rideId c : N) (name : string) (data : option StatusData) (ride : Ride) :
  rides w !! rideId = Some ride -> captain ride = Some c ->
  is_Some (captains w !! c) ->
  name = "completed" \/ name = "cancelled" ->
  on_ride_status u now (Some rideId) name data w = (inr tt, w') ->
  available w' c = Some true.
Proof.
  intros Hr Hc Hs Hn. unfold on_ride_status, ride_status_switch. run.
  destruct Hn as [-> | ->]; cbn; rewrite Hr;
    destruct (status ride); cbn; try discriminate;
    try (destruct (type u); cbn; try discriminate);
    try (destruct data; cbn; try discriminate);
    rewrite Hc; cbn;
    (destruct (estimate_in_future now _); cbn; [| discriminate]);
    intros [= <-]; apply available_alter; auto.
Qed.

Lemma updateRideStatus_release_flag (w w' : World) (u : Requester) (now : Z)
    (rideId c : N) (name : string) (data : option StatusData) (ride : Ride)
    (response : Response) :
  rides w !! rideId = Some ride -> captain ride = Some c ->
  is_Some (captains w !! c) ->
  name = "completed" \/ name = "cancelled" ->
  updateRideStatus u now rideId name data w = (response, w') ->
  statusCode response = 200 ->
  available w' c = Some true.
Proof.
  intros Hr Hc Hs Hn. unfold updateRideStatus, updateRideStatus_switch. run.
  destruct Hn as [-> | ->]; cbn; rewrite Hr;
    destruct (status ride); cbn; try (intros [= <- <-]; discriminate);
    try (destruct (type u); cbn; try (intros [= <- <-]; discriminate));
    try (destruct data; cbn; try (intros [= <- <-]; discriminate));
    rewrite Hc; cbn;
    (destruct (estimate_in_future now _); cbn;
     [| intros [= <- <-]; discriminate]);
    intros [= <- <-] _; apply available_alter; auto.
Qed.

(** Captain 7 reconnects while ride 1 is in progress: the middleware sets
    the flag to true although the ride is still active. *)
Lemma connect_during_ride_available :
  let w := sample_world (Some 7%N) IN_PROGRESS false in
  let w' := snd (io_use_captain 2000 "sock-8" 7 w) in
  holds_active_ride w' 7 = true /\ available w' 7 = Some true.
Proof. vm_compute. split; reflexivity. Qed.

(** Captain 7 is connected, available and holds no ride; after the
    disconnect the captain still holds no ride and the flag is false. *)
Lemma disconnect_idle_captain_unavailable :
  let w := sample_world None REQUESTED true in
  let w' := snd (on_disconnect captain7 2000 w) in
  spec_availability w 7 = true
  /\ holds_active_ride w' 7 = false
  /\ available w' 7 = Some false
  /\ spec_availability w' 7 = false.
Proof. vm_compute. repeat split. Qed.

(** C2 (amended).  What each operation that writes the flag leaves behind,
    for a captain that exists:
    - socket disconnect: false, whatever rides the captain holds;
    - socket connect of a captain who holds no active ride: true;
    - a successful accept, by the realtime handler, the HTTP handler,
      [confirmRide] or the controller around it: false for the accepting
      captain;
    - a successful completed or cancelled update, by the realtime or the HTTP
      handler: true for the captain of the ride;
    - the availability route: the value the captain sends, whatever rides
      the captain holds; a request it refuses writes nothing. *)
Theorem availability_after_operation (w : World) (now : Z) (c : N) :
  is_Some (captains w !! c) ->
  available (snd (on_disconnect (mkRequester c Captain) now w)) c = Some false
  /\ (forall socket_id : string,
        holds_active_ride w c = false ->
        fst (io_use_captain now socket_id c w) = inr tt
        /\ available (snd (io_use_captain now socket_id c w)) c = Some true)
  /\ (forall (rideId : option N) (data : option StatusData) (w' : World),
        on_ride_status (mkRequester c Captain) now rideId "accepted" data w
        = (inr tt, w') ->
        available w' c = Some false)
  /\ (forall (rideId : N) (data : option StatusData) (response : Response)
             (w' : World),
        updateRideStatus (mkRequester c Captain) now rideId "accepted" data w
        = (response, w') ->
        statusCode response = 200 ->
        available w' c = Some false)
  /\ (forall (rideId : N) (ride : Ride) (w' : World),
        confirmRide now rideId c w = (inr ride, w') ->
        available w' c = Some false)
  /\ (forall (u : Requester) (rideId : N) (name : string)
             (data : option StatusData) (ride : Ride) (w' : World),
        rides w !! rideId = Some ride -> captain ride = Some c ->
        name = "completed" \/ name = "cancelled" ->
        on_ride_status u now (Some rideId) name data w = (inr tt, w') ->
        available w' c = Some true)
  /\ (forall (u : Requester) (rideId : N) (name : string)
             (data : option StatusData) (ride : Ride) (response : Response)
             (w' : World),
        rides w !! rideId = Some ride -> captain ride = Some c ->
        name = "completed" \/ name = "cancelled" ->
        updateRideStatus u now rideId name data w = (response, w') ->
        statusCode response = 200 ->
        available w' c = Some true)
  /\ (forall (rideId : N) (data : option Ride) (w' : World),
        confirmRide_controller now rideId c w = (inr data, w') ->
        available w' c = Some false)
  /\ (forall isAvailable : bool,
        fst (updateAvailability c (Some isAvailable) true w)
        = AvailabilityUpdated isAvailable
        /\ available (snd (updateAvailability c (Some isAvailable) true w)) c
           = Some isAvailable)
  /\ (forall (isAvailable : option bool) (valid : bool),
        isAvailable = None \/ valid = false ->
        snd (updateAvailability c isAvailable valid w) = w).
Proof.
  intros Hc.
  split; [apply on_disconnect_flag; exact Hc |].
  split; [intros socket_id _; apply io_use_captain_flag; exact Hc |].
  split; [intros rideId data w' H;
          apply (on_ride_status_accept_flag w w' _ now rideId data H); exact Hc |].
  split; [intros rideId data response w' H H200;
          apply (updateRideStatus_accept_flag w w' _ now rideId data response H H200);
          exact Hc |].
  split; [intros rideId ride w' H; exact (confirmRide_flag w w' now rideId c ride H) |].
  split; [intros u rideId name data ride w' Hr Hcap Hn H;
          exact (on_ride_status_release_flag w w' u now rideId c name data ride
                   Hr Hcap Hc Hn H) |].
  split; [intros u rideId name data ride response w' Hr Hcap Hn H H200;
          exact (updateRideStatus_release_flag w w' u now rideId c name data
                   ride response Hr Hcap Hc Hn H H200) |].
  split; [intros rideId data w' H;
          exact (confirmRide_controller_flag w w' now rideId c data H) |].
  split; [intros isAvailable; apply updateAvailability_flag; exact Hc |].
  intros isAvailable valid H. apply updateAvailability_refused, H.
Qed.

Lemma availability_after_operation_witness :
  available (snd (on_disconnect captain7 2000 (sample_world None REQUESTED true))) 7
  = Some false
  /\ available (snd (on_ride_status captain7 2000 (Some 1%N) "completed"
                       (Some no_data) (sample_world (Some 7%N) IN_PROGRESS false))) 7
     = Some true
  /\ available (snd (updateAvailability 7 (Some true) true
                       (sample_world (Some 7%N) IN_PROGRESS false))) 7
     = Some true.
Proof.
  split; [| split].
  - destruct (availability_after_operation (sample_world None REQUESTED true) 2000 7)
      as [Hd _]; [eexists; reflexivity | exact Hd].
  - destruct (availability_after_operation
                (sample_world (Some 7%N) IN_PROGRESS false) 2000 7)
      as (_ & _ & _ & _ & _ & Hrel & _); [eexists; reflexivity |].
    apply (Hrel captain7 1%N "completed" (Some no_data)
             (sample_ride (Some 7%N) IN_PROGRESS)).
    + reflexivity.
    + reflexivity.
    + left. reflexivity.
    + reflexivity.
  - destruct (availability_after_operation
                (sample_world (Some 7%N) IN_PROGRESS false) 2000 7)
      as (_ & _ & _ & _ & _ & _ & _ & _ & Hset & _); [eexists; reflexivity |].
    apply (Hset true).
Defined.

End DispatchProps.

Module MapsProps.
Import Maps.
Local Open Scope string_scope.
Local Open Scope R_scope.


(** The fallback travels its distance at 30 km/h. *)
Lemma fallback_speed (lat1 lng1 lat2 lng2 : R) :
  let r := fallback lat1 lng1 lat2 lng2 in
  distance_value r = calculateDistance lat1 lng1 lat2 lng2 * 1000
  /\ duration_value r / 3600 * 30 = distance_value r / 1000.
Proof. unfold fallback. cbn. split; [reflexivity | field]. Qed.

(** An answer [getDistanceTime] cannot use is one [getRouteDetails] cannot
    use either. *)
Lemma route_details_needs_first_route (reply : OsrmReply) :
  first_route reply = None -> route_details reply = None.
Proof.
  destruct reply as [m | [data |]]; cbn; try reflexivity.
  destruct (String.eqb (code data) "Ok"); [| reflexivity].
  destruct (routes data) as [[| route rest] |]; try reflexivity. discriminate.
Qed.

(** With numeric coordinates [getDistanceTime] returns, whatever the
    provider does and whatever the cache holds. *)
Lemma getDistanceTime_returns (JSON_stringify : Location -> string)
    (reply : OsrmReply) (name1 name2 : string) (lng1 lat1 lng2 lat2 : R)
    (routeCache : gmap string CacheEntry) :
  exists entry,
    fst (getDistanceTime JSON_stringify reply (point name1 lng1 lat1)
           (point name2 lng2 lat2) routeCache) = inr entry.
Proof.
  unfold getDistanceTime. cbv zeta.
  destruct (routeCache !! _) as [e |]; [exists e; reflexivity |]. cbn.
  destruct (first_route reply); eexists; reflexivity.
Qed.

(** The lookup used by [createRide] has no fallback: a failed request on a
    cold cache raises. *)
Lemma getRouteDetails_raises :
  getRouteDetails (fun _ => "") (RequestFailed "timeout of 5000ms exceeded")
    (point "A" 0 0) (point "B" 1 1) ∅
  = (inl (ApiError 500 "Failed to get route details from mapping service."), ∅).
Proof. unfold getRouteDetails. cbn. rewrite lookup_empty. reflexivity. Qed.

(** C8 (amended).  Two points with numeric coordinates and a provider whose
    answer is unusable (the request fails, or the response carries no
    route).  [getDistanceTime] never raises; unless the cache holds another
    object under its key, it returns the haversine distance of
    [calculateDistance] in metres with the duration of that distance at
    30 km/h, and caches it.  [getRouteDetails] has no fallback: on a cache
    miss it raises [ApiError 500]. *)
Theorem route_lookup_when_provider_fails
    (JSON_stringify : Location -> string) (join : list jsnum -> string)
    (reply : OsrmReply) (name1 name2 : string) (lng1 lat1 lng2 lat2 : R)
    (routeCache : gmap string CacheEntry) :
  let pickup := point name1 lng1 lat1 in
  let destination := point name2 lng2 lat2 in
  let key := getDistanceTime_key JSON_stringify pickup destination in
  let estimate := fallback lat1 lng1 lat2 lng2 in
  let answer := getDistanceTime JSON_stringify reply pickup destination routeCache in
  first_route reply = None ->
  (exists entry, fst answer = inr entry)
  /\ (routeCache !! key = None
      \/ routeCache !! key = Some (DistanceTimeEntry estimate) ->
      fst answer = inr (DistanceTimeEntry estimate)
      /\ snd answer !! key = Some (DistanceTimeEntry estimate))
  /\ distance_value estimate = calculateDistance lat1 lng1 lat2 lng2 * 1000
  /\ duration_value estimate / 3600 * 30 = distance_value estimate / 1000
  /\ (routeCache !! getRouteDetails_key join [Num lng1; Num lat1] [Num lng2; Num lat2]
      = None ->
      getRouteDetails join reply pickup destination routeCache
      = (inl (ApiError 500 "Failed to get route details from mapping service."),
         routeCache)).
Proof.
  intros pickup destination key estimate answer Hfail.
  split; [apply getDistanceTime_returns |].
  split.
  - unfold answer, getDistanceTime. cbv zeta. fold key.
    intros [Hk | Hk]; rewrite Hk; cbn.
    + rewrite Hfail. cbn. split; [reflexivity | apply lookup_insert_eq].
    + split; [reflexivity | exact Hk].
  - split; [apply fallback_speed |]. split; [apply fallback_speed |].
    intros Hk. unfold getRouteDetails. cbn. rewrite Hk.
    rewrite (route_details_needs_first_route reply Hfail). reflexivity.
Qed.

Lemma route_lookup_when_provider_fails_witness :
  fst (getDistanceTime (fun _ => "") (RequestFailed "timeout of 5000ms exceeded")
         (point "A" 0 0) (point "B" 1 1) ∅)
  = inr (DistanceTimeEntry (fallback 0 0 1 1)).
Proof.
  destruct (route_lookup_when_provider_fails (fun _ => "") (fun _ => "")
              (RequestFailed "timeout of 5000ms exceeded") "A" "B" 0 0 1 1 ∅)
    as (_ & Hest & _).
  - reflexivity.
  - apply Hest. left. apply lookup_empty.
Defined.

End MapsProps.

Module LifecycleProps.
Import Dispatch Realtime Lifecycle DispatchProps.
Local Open Scope string_scope.
Local Open Scope Z_scope.

Lemma edge_lifecycle (a b : Status) :
  edge a b = true -> lifecycle_edge a b = true.
Proof. destruct a, b; simpl; congruence. Qed.

Lemma edge_to_accepted (a : Status) : edge a ACCEPTED = true -> a = REQUESTED.
Proof. destruct a; simpl; congruence. Qed.

Ltac stored rid r :=
  right; exists rid, r; eexists;
  split; [eassumption || reflexivity |];
  split; [reflexivity |].

(** The save passed, and the estimate is the one the step may store. *)
Ltac saved :=
  split; [assumption || (cbn; assumption) |];
  cbn; intros; first [ reflexivity | congruence ].

Lemma confirmRide_writes_one (w : World) (now : Z) (rideId c : N) :
  writes_one now w (snd (confirmRide now rideId c w)).
Proof.
  unfold confirmRide. run.
  destruct (rides w !! rideId) as [r |] eqn:Hr; [| left; reflexivity].
  destruct (status r) eqn:Hs; cbn; try (left; reflexivity).
  destruct (captains w !! c) as [doc |]; [| left; reflexivity].
  destruct (isAvailable doc); cbn; [| left; reflexivity].
  save_cases; [| left; reflexivity].
  stored rideId r. split; [| saved]. unfold steps. cbn. rewrite Hs.
  repeat split; try reflexivity; [eauto | intros H; exfalso; apply H; reflexivity].
Qed.

Lemma startRide_writes_one (w : World) (now : Z) (rideId c : N) (supplied : jsval) :
  writes_one now w (snd (startRide now rideId supplied c w)).
Proof.
  unfold startRide. run.
  destruct (rides w !! rideId) as [r |] eqn:Hr; [| left; reflexivity].
  destruct (captain_is r c); cbn; [| left; reflexivity].
  destruct (status r) eqn:Hs; cbn; try (left; reflexivity).
  destruct (strict_neq (otp r) supplied); cbn; [left; reflexivity |].
  save_cases; [| left; reflexivity].
  stored rideId r. split; [| saved].
  unfold steps. cbn. rewrite Hs. repeat split; try reflexivity.
  discriminate.
Qed.

Lemma endRide_writes_one (w : World) (now : Z) (rideId c : N)
    (paymentMethod : option string) (tip : option Z) :
  writes_one now w (snd (endRide now rideId c paymentMethod tip w)).
Proof.
  unfold endRide. run.
  destruct (rides w !! rideId) as [r |] eqn:Hr; [| left; reflexivity].
  destruct (captain_is r c); cbn; [| left; reflexivity].
  destruct (status r) eqn:Hs; cbn; try (left; reflexivity).
  save_cases; [| left; reflexivity].
  stored rideId r. split; [| saved].
  unfold steps. cbn. rewrite Hs. repeat split; try reflexivity.
  discriminate.
Qed.

Lemma cancelRide_writes_one (w : World) (now : Z) (rideId userId : N)
    (reason : option string) :
  writes_one now w (snd (cancelRide now rideId userId reason w)).
Proof.
  unfold cancelRide. run.
  destruct (rides w !! rideId) as [r |] eqn:Hr; [| left; reflexivity].
  destruct (N.eqb (user r) userId); cbn; [| left; reflexivity].
  destruct (status r) eqn:Hs; cbn; try (left; reflexivity);
    (save_cases; [| left; reflexivity]);
    (stored rideId r; split; [| saved]; unfold steps; cbn; rewrite Hs;
     repeat split; try reflexivity; discriminate).
Qed.

(** The tests a handler makes, the validation of its save last. *)
Ltac handler_save_cases :=
  repeat match goal with
         | |- context [UserType_eqb (type ?u) Captain] => destruct (type u); cbn
         | |- context [match ?d with Some _ => _ | None => _ end] =>
             destruct d; cbn
         | |- context [if estimate_in_future ?n ?r then _ else _] =>
             destruct (estimate_in_future n r) eqn:?; cbn
         | |- context [if Z.ltb ?a ?b then _ else _] =>
             destruct (Z.ltb a b) eqn:?; cbn
         | |- context [if ?b then _ else _] => destruct b; cbn
         end.

Lemma on_ride_status_writes_one (w : World) (u : Requester) (now : Z)
    (rideId : option N) (name : string) (data : option StatusData) :
  writes_one now w (snd (on_ride_status u now rideId name data w)).
Proof.
  unfold on_ride_status. run.
  destruct rideId as [rid |]; [| left; reflexivity].
  destruct (String.eqb name ""); [left; reflexivity |].
  destruct (rides w !! rid) as [ride |] eqn:Hr; [| left; reflexivity].
  destruct (includes (validTransitions (status ride)) name) eqn:Hi;
    [| left; reflexivity].
  apply includes_table in Hi as (s' & Hn & He).
  rewrite Hn. apply status_of_name_Some in Hn. subst name. cbn.
  unfold ride_status_switch. run.
  pose proof (edge_lifecycle _ _ He) as Hl.
  destruct s'; cbn; handler_save_cases;
    first [ left; reflexivity
          | destruct (status ride); discriminate He
          | stored rid ride; (split; [| saved]); unfold steps; cbn;
            repeat split; try reflexivity; try exact Hl;
            first [ discriminate | solve [eauto]
                  | intros H; exfalso; apply H; reflexivity ] ].
Qed.

Lemma updateRideStatus_writes_one (w : World) (u : Requester) (now : Z)
    (rid : N) (name : string) (data : option StatusData) :
  writes_one now w (snd (updateRideStatus u now rid name data w)).
Proof.
  unfold updateRideStatus. run.
  destruct (rides w !! rid) as [ride |] eqn:Hr; [| left; reflexivity].
  destruct (includes (validTransitions (status ride)) name) eqn:Hi;
    [| left; reflexivity].
  apply includes_table in Hi as (s' & Hn & He).
  rewrite Hn. apply status_of_name_Some in Hn. subst name. cbn.
  unfold updateRideStatus_switch. run.
  pose proof (edge_lifecycle _ _ He) as Hl.
  destruct s'; cbn; handler_save_cases;
    first [ left; reflexivity
          | destruct (status ride); discriminate He
          | stored rid ride; (split; [| saved]); unfold steps; cbn;
            repeat split; try reflexivity; try exact Hl;
            first [ discriminate | solve [eauto]
                  | intros H; exfalso; apply H; reflexivity ] ].
Qed.

(** Every operation writes at most one ride, and only one step further. *)
Lemma perform_writes_one (now : Z) (req : Request) (w : World) :
  writes_one now w (perform now req w).
Proof.
  destruct req; cbn [perform].
  - apply confirmRide_writes_one.
  - apply startRide_writes_one.
  - apply endRide_writes_one.
  - apply cancelRide_writes_one.
  - apply on_ride_status_writes_one.
  - apply updateRideStatus_writes_one.
  - left. unfold io_use_captain. run.
    destruct (captains w !! captain_id); reflexivity.
  - left. unfold on_disconnect. run.
    destruct (UserType_eqb (type socket_user) Captain); reflexivity.
  - left. unfold on_update_lastSeen. run.
    destruct (UserType_eqb (type socket_user) Captain); reflexivity.
Qed.


(** After one operation a stored ride is still stored, unchanged or one
    step further; an absent ride is still absent. *)
Lemma perform_stored (now : Z) (req : Request) (w : World) (rid : N) :
  match rides w !! rid with
  | Some r => exists r', rides (perform now req w) !! rid = Some r'
                         /\ (r' = r \/ steps r r')
  | None => rides (perform now req w) !! rid = None
  end.
Proof.
  destruct (perform_writes_one now req w)
    as [E | (rid0 & r0 & r0' & Hr0 & E & Hs & _)]; rewrite E.
  - destruct (rides w !! rid) as [r |]; eauto.
  - destruct (decide (rid0 = rid)) as [-> | Hne].
    + rewrite Hr0, lookup_insert_eq. eauto.
    + rewrite lookup_insert_ne by exact Hne.
      destruct (rides w !! rid) as [r |]; eauto.
Qed.

(** X1.  Whatever requests are served, in whatever order: no ride is deleted
    and none appears, and a stored ride keeps its rider and its
    verification code. *)
Theorem run_keeps_rides (trace : list (Z * Request)) (w : World) (rid : N) :
  match rides w !! rid with
  | Some r => exists r', rides (run trace w) !! rid = Some r'
                         /\ user r' = user r /\ otp r' = otp r
  | None => rides (run trace w) !! rid = None
  end.
Proof.
  revert w. induction trace as [| [now req] trace IH]; intros w; cbn [run].
  - destruct (rides w !! rid) as [r |]; eauto.
  - specialize (IH (perform now req w)).
    pose proof (perform_stored now req w rid) as Hp.
    destruct (rides w !! rid) as [r |].
    + destruct Hp as (r1 & Hr1 & Hev). rewrite Hr1 in IH.
      destruct IH as (r' & Hr' & Hu & Ho). exists r'. split; [exact Hr' |].
      destruct Hev as [-> | (Hu1 & Ho1 & _)]; [tauto |].
      split; congruence.
    + rewrite Hp in IH. exact IH.
Qed.



Lemma steps_assigned (r r' : Ride) :
  steps r r' -> assigned_ok r -> assigned_ok r'.
Proof.
  intros (_ & _ & Hedge & Hacc & Hkeep) [H0 H1]. split.
  - intros Hs. rewrite Hs in Hedge. destruct (status r); discriminate.
  - intros Hn0 Hn1.
    destruct (status r') eqn:Hs'; try congruence; try (apply Hacc; reflexivity);
      (rewrite Hkeep by discriminate; apply H1; intros Hs; rewrite Hs in Hedge;
       discriminate).
Qed.

Lemma perform_well_assigned (now : Z) (req : Request) (w : World) :
  well_assigned w -> well_assigned (perform now req w).
Proof.
  intros Hw rid r' Hr'.
  pose proof (perform_stored now req w rid) as Hp.
  destruct (rides w !! rid) as [r |] eqn:Hr; [| congruence].
  destruct Hp as (r1 & Hr1 & Hev).
  assert (r1 = r') by congruence. subst r1.
  destruct Hev as [-> | Hs]; [eauto | eapply steps_assigned; eauto].
Qed.

(** X3.  If every requested ride has no captain and every ride that is
    accepted, on its way, in progress or completed has one, then the same
    holds after any sequence of requests. *)
Theorem run_well_assigned (trace : list (Z * Request)) (w : World) :
  well_assigned w -> well_assigned (run trace w).
Proof.
  revert w. induction trace as [| [now req] trace IH]; intros w Hw; cbn [run].
  - exact Hw.
  - apply IH, perform_well_assigned, Hw.
Qed.

Lemma sample_well_assigned : well_assigned (sample_world None REQUESTED true).
Proof.
  intros rid r Hr. unfold sample_world in Hr. cbn in Hr.
  apply lookup_singleton_Some in Hr as [_ <-]. split; [reflexivity |].
  intros H. exfalso. apply H. reflexivity.
Qed.

Lemma run_well_assigned_witness :
  well_assigned
    (run [(2000, ConfirmRide 1 7); (3000, StartRide 1 (str "482913") 7)]
         (sample_world None REQUESTED true)).
Proof. apply run_well_assigned, sample_well_assigned. Defined.



(** *** The two status handlers side by side *)

(** X5.  The realtime handler and the HTTP handler leave the same store for
    the same request, and the one reports an error exactly when the other
    answers with a status other than 200. *)
Theorem status_handlers_agree (w : World) (u : Requester) (now : Z) (rid : N)
    (name : string) (data : option StatusData) :
  name <> "" ->
  snd (on_ride_status u now (Some rid) name data w)
  = snd (updateRideStatus u now rid name data w)
  /\ (fst (on_ride_status u now (Some rid) name data w) = inr tt
      <-> statusCode (fst (updateRideStatus u now rid name data w)) = 200).
Proof.
  intros Hne. unfold on_ride_status, updateRideStatus. run.
  destruct (String.eqb_spec name "") as [-> | _]; [congruence |].
  destruct (rides w !! rid) as [ride |] eqn:Hr;
    [| cbn; split; [reflexivity | split; discriminate]].
  destruct (includes (validTransitions (status ride)) name) eqn:Hi;
    [| cbn; split; [reflexivity | split; discriminate]].
  apply includes_table in Hi as (s' & Hn & He).
  rewrite Hn. apply status_of_name_Some in Hn. subst name. cbn.
  unfold ride_status_switch, updateRideStatus_switch. run.
  destruct s'; cbn; handler_cases;
    first [ destruct (status ride); discriminate He
          | split; [reflexivity | split; first [reflexivity | discriminate]] ].
Qed.

Lemma status_handlers_agree_witness :
  snd (on_ride_status captain7 2000 (Some 1%N) "accepted" (Some no_data)
         (sample_world None REQUESTED true))
  = snd (updateRideStatus captain7 2000 1 "accepted" (Some no_data)
           (sample_world None REQUESTED true)).
Proof.
  apply (status_handlers_agree (sample_world None REQUESTED true) captain7 2000 1
           "accepted" (Some no_data)).
  discriminate.
Defined.

(** X6.  A rider can only cancel: whatever status other than cancelled a
    requester of type [User] names, both handlers leave the store as it was. *)
Theorem rider_requests_write_nothing (w : World) (u : Requester) (now : Z)
    (rideId : option N) (rid : N) (name : string) (data : option StatusData) :
  type u = User -> name <> "cancelled" ->
  snd (on_ride_status u now rideId name data w) = w
  /\ snd (updateRideStatus u now rid name data w) = w.
Proof.
  intros Hu Hne. split.
  - unfold on_ride_status. run.
    destruct rideId as [rid' |]; [| reflexivity].
    destruct (String.eqb name ""); [reflexivity |].
    destruct (rides w !! rid') as [ride |] eqn:Hr; [| reflexivity].
    destruct (includes (validTransitions (status ride)) name) eqn:Hi;
      [| reflexivity].
    apply includes_table in Hi as (s' & Hn & He).
    rewrite Hn. apply status_of_name_Some in Hn. subst name. cbn.
    unfold ride_status_switch. run.
    destruct s'; cbn; rewrite ?Hu; cbn; try reflexivity.
    + destruct (status ride); discriminate He.
    + exfalso. apply Hne. reflexivity.
  - unfold updateRideStatus. run.
    destruct (rides w !! rid) as [ride |] eqn:Hr; [| reflexivity].
    destruct (includes (validTransitions (status ride)) name) eqn:Hi;
      [| reflexivity].
    apply includes_table in Hi as (s' & Hn & He).
    rewrite Hn. apply status_of_name_Some in Hn. subst name. cbn.
    unfold updateRideStatus_switch. run.
    destruct s'; cbn; rewrite ?Hu; cbn; try reflexivity.
    + destruct (status ride); discriminate He.
    + exfalso. apply Hne. reflexivity.
Qed.

Lemma rider_requests_write_nothing_witness :
  snd (on_ride_status rider10 2000 (Some 1%N) "completed" (Some no_data)
         (sample_world (Some 7%N) IN_PROGRESS false))
  = sample_world (Some 7%N) IN_PROGRESS false.
Proof.
  apply (rider_requests_write_nothing (sample_world (Some 7%N) IN_PROGRESS false)
           rider10 2000 (Some 1%N) 1 "completed" (Some no_data)).
  - reflexivity.
  - discriminate.
Defined.

(** X7.  Apart from an acceptance, neither handler looks at who asks, only
    at the type of the requester: two requesters of the same type get the
    same answer and leave the same store.  In particular a captain other
    than the one assigned can move a ride forward. *)
Theorem status_update_ignores_requester_id (w : World) (u1 u2 : Requester)
    (now : Z) (rideId : option N) (rid : N) (name : string)
    (data : option StatusData) :
  type u1 = type u2 -> name <> "accepted" ->
  on_ride_status u1 now rideId name data w
  = on_ride_status u2 now rideId name data w
  /\ updateRideStatus u1 now rid name data w
     = updateRideStatus u2 now rid name data w.
Proof.
  intros Ht Hne. split.
  - unfold on_ride_status. run.
    destruct rideId as [rid' |]; [| reflexivity].
    destruct (String.eqb name ""); [reflexivity |].
    destruct (rides w !! rid') as [ride |] eqn:Hr; [| reflexivity].
    destruct (includes (validTransitions (status ride)) name) eqn:Hi;
      [| reflexivity].
    apply includes_table in Hi as (s' & Hn & He).
    rewrite Hn. apply status_of_name_Some in Hn. subst name. cbn.
    unfold ride_status_switch. run.
    destruct s'; cbn; rewrite ?Ht; try reflexivity.
    exfalso. apply Hne. reflexivity.
  - unfold updateRideStatus. run.
    destruct (rides w !! rid) as [ride |] eqn:Hr; [| reflexivity].
    destruct (includes (validTransitions (status ride)) name) eqn:Hi;
      [| reflexivity].
    apply includes_table in Hi as (s' & Hn & He).
    rewrite Hn. apply status_of_name_Some in Hn. subst name. cbn.
    unfold updateRideStatus_switch. run.
    destruct s'; cbn; rewrite ?Ht; try reflexivity.
    exfalso. apply Hne. reflexivity.
Qed.

Lemma status_update_ignores_requester_id_witness :
  on_ride_status (mkRequester 8 Captain) 2000 (Some 1%N) "completed" None
    (sample_world (Some 7%N) IN_PROGRESS false)
  = on_ride_status captain7 2000 (Some 1%N) "completed" None
      (sample_world (Some 7%N) IN_PROGRESS false).
Proof.
  apply (status_update_ignores_requester_id
           (sample_world (Some 7%N) IN_PROGRESS false)
           (mkRequester 8 Captain) captain7 2000 (Some 1%N) 1 "completed" None).
  - reflexivity.
  - discriminate.
Defined.

(** *** Acceptance and start *)

Lemma strict_neq_false (s : string) (v : jsval) :
  strict_neq s v = false -> v = str s.
Proof.
  destruct v as [| | b | z | t]; simpl; try discriminate.
  destruct (String.eqb_spec s t) as [-> | _]; [reflexivity | discriminate].
Qed.

Lemma confirmRide_success (w : World) (now : Z) (rid c : N) (r1 : Ride) :
  fst (confirmRide now rid c w) = inr r1 ->
  rides (snd (confirmRide now rid c w)) !! rid = Some r1
  /\ status r1 = ACCEPTED /\ captain r1 = Some c
  /\ available (snd (confirmRide now rid c w)) c = Some false.
Proof.
  unfold confirmRide. run.
  destruct (rides w !! rid) as [r |]; [| discriminate].
  destruct (Status_eqb (status r) REQUESTED); [| discriminate].
  destruct (captains w !! c) as [doc |] eqn:Hc; [| discriminate].
  destruct (isAvailable doc); cbn; [| discriminate].
  save_cases; [| discriminate].
  intros [= <-]. rewrite lookup_insert_eq. repeat split.
  apply available_alter; [rewrite Hc |]; eauto.
Qed.





(** X9.  A captain who has confirmed a ride cannot confirm a second one
    before being released: the flag [confirmRide] has set to false makes
    the next [confirmRide] of that captain fail, on any ride, with nothing
    written. *)
Theorem confirmRide_blocks_captain (w : World) (t1 t2 : Z) (rid rid2 c : N)
    (r1 : Ride) :
  fst (confirmRide t1 rid c w) = inr r1 ->
  let w' := snd (confirmRide t1 rid c w) in
  exists message, confirmRide t2 rid2 c w' = (inl message, w').
Proof.
  intros H w'. destruct (confirmRide_success _ _ _ _ _ H) as (_ & _ & _ & Ha).
  fold w' in Ha. unfold available in Ha. unfold confirmRide. run.
  destruct (rides w' !! rid2) as [r |]; [| eauto].
  destruct (Status_eqb (status r) REQUESTED); [| eauto].
  destruct (captains w' !! c) as [doc |]; [| eauto].
  cbn in Ha. injection Ha as ->. cbn. eauto.
Qed.

Lemma confirmRide_blocks_captain_witness :
  exists message,
    confirmRide 3000 2 7 (snd (confirmRide 2000 1 7 (sample_world None REQUESTED true)))
    = (inl message, snd (confirmRide 2000 1 7 (sample_world None REQUESTED true))).
Proof.
  apply (confirmRide_blocks_captain (sample_world None REQUESTED true) 2000 3000
           1 2 7 (with_estimatedArrivalTime (sample_ride (Some 7%N) ACCEPTED)
                    (Some 602000))).
  reflexivity.
Defined.

(** X10.  The two ways to start a ride exclude each other: [startRide]
    succeeds only on a ride that is accepted, for its own captain and with
    exactly the stored code, and the status handlers grant in-progress only
    to a captain on a ride that is on its way. *)
Theorem start_paths_disjoint (w : World) (now : Z) (rid c : N) (supplied : jsval)
    (u : Requester) (data : option StatusData) (ride r1 : Ride) :
  rides w !! rid = Some ride ->
  (fst (startRide now rid supplied c w) = inr r1 ->
   status ride = ACCEPTED /\ captain ride = Some c /\ supplied = str (otp ride))
  /\ (fst (on_ride_status u now (Some rid) "in-progress" data w) = inr tt ->
      status ride = ON_THE_WAY /\ type u = Captain)
  /\ (statusCode (fst (updateRideStatus u now rid "in-progress" data w)) = 200 ->
      status ride = ON_THE_WAY /\ type u = Captain).
Proof.
  intros Hr. split; [| split].
  - unfold startRide. run. rewrite Hr. unfold captain_is.
    destruct (captain ride) as [c' |]; [| discriminate].
    destruct (N.eqb_spec c' c) as [-> | _]; [| discriminate].
    destruct (status ride); try discriminate. cbn.
    destruct (strict_neq (otp ride) supplied) eqn:Hn; [discriminate |].
    intros _. repeat split. apply strict_neq_false, Hn.
  - unfold on_ride_status, ride_status_switch. run. cbn. rewrite Hr.
    destruct (status ride); cbn; try discriminate.
    destruct (type u); cbn; [discriminate | tauto].
  - unfold updateRideStatus, updateRideStatus_switch. run. cbn. rewrite Hr.
    destruct (status ride); cbn; try discriminate.
    destruct (type u); cbn; [discriminate | tauto].
Qed.

Lemma start_paths_disjoint_witness :
  fst (on_ride_status captain7 2000 (Some 1%N) "in-progress" (Some no_data)
         (sample_world (Some 7%N) ACCEPTED false)) <> inr tt.
Proof.
  intros H.
  destruct (start_paths_disjoint (sample_world (Some 7%N) ACCEPTED false) 2000 1 7
              (str "482913") captain7 (Some no_data)
              (sample_ride (Some 7%N) ACCEPTED) (sample_ride (Some 7%N) ACCEPTED))
    as (_ & Hsock & _).
  - reflexivity.
  - destruct (Hsock H) as [Hs _]. discriminate Hs.
Defined.

(** *** Whole rides *)

(** X11.  A whole ride through the realtime handler.  A captain who exists
    asks for accepted, on-the-way, in-progress (without a code) and
    completed on a requested ride that carries no arrival estimate, or one
    still in the future.  The on-the-way request sets the estimate 15
    minutes ahead; if in-progress is asked before that time, the first
    three requests are granted.  If completed is asked before that time as
    well, the ride ends completed with that captain and both actual times
    stamped; if it is asked later, the save is refused and the ride stays
    in progress.  In both cases the captain is available again. *)
Theorem realtime_ride_cycle (w : World) (rid c : N) (r : Ride) (doc : CaptainDoc)
    (t1 t2 t3 t4 : Z) (d1 d2 d4 : option StatusData) (d3 : StatusData) :
  rides w !! rid = Some r -> status r = REQUESTED ->
  estimate_in_future t1 r = true ->
  captains w !! c = Some doc ->
  truthy (data_otp d3) = false ->
  t3 < t2 + 15 * 60 * 1000 ->
  let u := mkRequester c Captain in
  let w' := run [(t1, SocketStatus u (Some rid) "accepted" d1);
                 (t2, SocketStatus u (Some rid) "on-the-way" d2);
                 (t3, SocketStatus u (Some rid) "in-progress" (Some d3));
                 (t4, SocketStatus u (Some rid) "completed" d4)] w in
  let started := mkRide (user r) (Some c) IN_PROGRESS (otp r)
                        (Some (t2 + 15 * 60 * 1000)) (Some t3) (actualEndTime r)
                        (cancellationReason r) in
  (t4 < t2 + 15 * 60 * 1000 ->
   rides w' !! rid
   = Some (with_actualEndTime (with_status started COMPLETED) (Some t4)))
  /\ (t2 + 15 * 60 * 1000 <= t4 -> rides w' !! rid = Some started)
  /\ captains w' !! c = Some (mkCaptainDoc (socketId doc) true t4).
Proof.
  intros Hr Hs He Hc Ht H3 u w' started. unfold w', started. cbn [run perform].
  assert (H2 : (t2 <? t2 + 15 * 60 * 1000) = true) by (apply Z.ltb_lt; lia).
  apply Z.ltb_lt in H3.
  unfold on_ride_status, ride_status_switch. run. cbn.
  rewrite Hr, Hs. cbn.
  change (estimate_in_future t1 (with_captain (with_status r ACCEPTED) (Some c)))
    with (estimate_in_future t1 r).
  rewrite He. cbn. rewrite lookup_insert_eq. cbn.
  rewrite H2. cbn. rewrite lookup_insert_eq. cbn. rewrite Ht. cbn.
  rewrite H3. cbn. rewrite lookup_insert_eq. cbn.
  destruct (Z.ltb_spec t4 (t2 + 15 * 60 * 1000)) as [H4 | H4]; cbn.
  - split; [intros _; apply lookup_insert_eq |]. split; [lia |].
    rewrite lookup_alter_eq, lookup_alter_eq, Hc. reflexivity.
  - split; [lia |]. split; [intros _; apply lookup_insert_eq |].
    rewrite lookup_alter_eq, lookup_alter_eq, Hc. reflexivity.
Qed.

Lemma realtime_ride_cycle_witness :
  captains (run [(2000, SocketStatus captain7 (Some 1%N) "accepted" None);
                 (3000, SocketStatus captain7 (Some 1%N) "on-the-way" None);
                 (4000, SocketStatus captain7 (Some 1%N) "in-progress" (Some no_data));
                 (5000, SocketStatus captain7 (Some 1%N) "completed" None)]
                (sample_world None REQUESTED true)) !! 7%N
  = Some (mkCaptainDoc (Some "sock-7") true 5000).
Proof.
  apply (realtime_ride_cycle (sample_world None REQUESTED true) 1 7
           (sample_ride None REQUESTED) (mkCaptainDoc (Some "sock-7") true 1000)
           2000 3000 4000 5000 None None None no_data);
    first [reflexivity | lia].
Defined.

(** X12.  A whole ride through the service operations.  On a requested ride
    and an available captain, [confirmRide] succeeds and sets the arrival
    estimate 10 minutes ahead; [startRide] with the stored code, called
    before that time, succeeds.  [endRide] called before that time as well
    completes the ride, with both actual times stamped; called later it
    throws the validation error of the save and the ride stays in
    progress.  In both cases the captain document is the one [confirmRide]
    wrote: unavailable, last seen at the confirmation. *)
Theorem service_ride_cycle (w : World) (rid c : N) (r : Ride) (doc : CaptainDoc)
    (t1 t2 t3 : Z) (paymentMethod : option string) (tip : option Z) :
  rides w !! rid = Some r -> status r = REQUESTED ->
  captains w !! c = Some doc -> isAvailable doc = true ->
  t2 < t1 + 10 * 60000 ->
  let w1 := snd (confirmRide t1 rid c w) in
  let w2 := snd (startRide t2 rid (str (otp r)) c w1) in
  let w3 := snd (endRide t3 rid c paymentMethod tip w2) in
  let started := mkRide (user r) (Some c) IN_PROGRESS (otp r)
                        (Some (t1 + 10 * 60000)) (Some t2) (actualEndTime r)
                        (cancellationReason r) in
  let final := with_actualEndTime (with_status started COMPLETED) (Some t3) in
  rides w2 !! rid = Some started
  /\ (t3 < t1 + 10 * 60000 ->
      fst (endRide t3 rid c paymentMethod tip w2) = inr final
      /\ rides w3 !! rid = Some final)
  /\ (t1 + 10 * 60000 <= t3 ->
      fst (endRide t3 rid c paymentMethod tip w2)
      = inl ("Failed to end ride: " ++ estimate_not_in_future)
      /\ w3 = w2)
  /\ captains w3 !! c = Some (mkCaptainDoc (socketId doc) false t1).
Proof.
  intros Hr Hs Hc Ha H2 w1 w2 w3 started final.
  assert (H1 : (t1 <? t1 + 10 * 60000) = true) by (apply Z.ltb_lt; lia).
  apply Z.ltb_lt in H2.
  unfold final, started, w3, w2, w1, confirmRide, startRide, endRide. run.
  rewrite Hr, Hs. cbn. rewrite Hc. cbn. rewrite Ha. cbn. rewrite H1. cbn.
  unfold captain_is.
  repeat (first [ rewrite lookup_insert_eq | rewrite N.eqb_refl
                | rewrite String.eqb_refl | rewrite H2 ]; cbn).
  split; [reflexivity |].
  destruct (Z.ltb_spec t3 (t1 + 10 * 60000)) as [H3 | H3]; cbn.
  - rewrite lookup_insert_eq.
    split; [intros _; split; reflexivity |]. split; [lia |].
    rewrite lookup_alter_eq, Hc. reflexivity.
  - split; [lia |]. split; [intros _; split; reflexivity |].
    rewrite lookup_alter_eq, Hc. reflexivity.
Qed.

Lemma service_ride_cycle_witness :
  captains (snd (endRide 4000 1 7 (Some "cash") None
                   (snd (startRide 3000 1 (str "482913") 7
                           (snd (confirmRide 2000 1 7
                                   (sample_world None REQUESTED true))))))) !! 7%N
  = Some (mkCaptainDoc (Some "sock-7") false 2000).
Proof.
  apply (service_ride_cycle (sample_world None REQUESTED true) 1 7
           (sample_ride None REQUESTED) (mkCaptainDoc (Some "sock-7") true 1000)
           2000 3000 4000 (Some "cash") None);
    first [reflexivity | lia].
Defined.

(** X30.  A ride that is on its way or in progress is frozen once its
    arrival estimate has passed: whatever requests are served from then on,
    every save of the ride is refused by the validator of the estimate, so
    the ride is never started, completed or cancelled, and its record stays
    what it was. *)
Theorem ride_stuck_after_estimate (trace : list (Z * Request)) (w : World)
    (rid : N) (r : Ride) (v : Z) :
  rides w !! rid = Some r ->
  status r = ON_THE_WAY \/ status r = IN_PROGRESS ->
  estimatedArrivalTime r = Some v ->
  Forall (fun req => v <= fst req) trace ->
  rides (run trace w) !! rid = Some r.
Proof.
  intros Hr Hs Hv Ht. revert w Hr.
  induction Ht as [| [now req] trace Hnow _ IH]; intros w Hr; cbn [run];
    [exact Hr |].
  apply IH. cbn in Hnow.
  destruct (perform_writes_one now req w)
    as [E | (rid0 & r0 & r0' & Hr0 & E & Hst & Hpass & Hkeep)]; rewrite E;
    [exact Hr |].
  destruct (decide (rid0 = rid)) as [-> | Hne];
    [| rewrite lookup_insert_ne by exact Hne; exact Hr].
  exfalso. assert (r0 = r) by congruence. subst r0.
  destruct Hst as (_ & _ & Hedge & _).
  unfold estimate_in_future in Hpass. rewrite Hkeep, Hv in Hpass.
  - apply Z.ltb_lt in Hpass. lia.
  - intros Ha. rewrite Ha in Hedge. destruct Hs as [Hs | Hs]; rewrite Hs in Hedge;
      discriminate.
  - intros Ha. rewrite Ha in Hedge. destruct Hs as [Hs | Hs]; rewrite Hs in Hedge;
      discriminate.
Qed.

Lemma ride_stuck_after_estimate_witness :
  rides (run [(1000000, SocketStatus captain7 (Some 1%N) "in-progress"
                          (Some no_data));
              (1000001, HttpStatus rider10 1 "cancelled" (Some no_data))]
             (sample_world_due (Some 7%N) ON_THE_WAY false 903000)) !! 1%N
  = Some (with_estimatedArrivalTime (sample_ride (Some 7%N) ON_THE_WAY)
            (Some 903000)).
Proof.
  apply (ride_stuck_after_estimate _
           (sample_world_due (Some 7%N) ON_THE_WAY false 903000) 1
           (with_estimatedArrivalTime (sample_ride (Some 7%N) ON_THE_WAY)
              (Some 903000)) 903000).
  - reflexivity.
  - left. reflexivity.
  - reflexivity.
  - repeat constructor; cbn; lia.
Defined.

(** *** Who hears of a new ride *)

Lemma active_captains_elem (w : World) (now : Z) (c : N) (doc : CaptainDoc) :
  (c, doc) ∈ active_captains now w
  <-> captains w !! c = Some doc /\ now - 5 * 60 * 1000 <= lastSeen doc.
Proof.
  unfold active_captains. rewrite list_elem_of_filter, elem_of_map_to_list.
  cbn. tauto.
Qed.

Lemma socket_of_Some (doc : CaptainDoc) (s : string) :
  socket_of doc = Some s <-> socketId doc = Some s /\ s <> "".
Proof.
  unfold socket_of.
  destruct (socketId doc) as [s' |]; [| split; [| intros []]; discriminate].
  destruct (String.eqb_spec s' "") as [-> | Hne]; split.
  - discriminate.
  - intros [[= <-] H]. exfalso. apply H. reflexivity.
  - intros [= <-]. auto.
  - intros [[= <-] _]. reflexivity.
Qed.

(** A captain seen within the last five minutes, with a socket, is among
    those the handler offers the ride to. *)
Lemma on_new_ride_offers (w : World) (now : Z) (userId c : N) (doc : CaptainDoc)
    (s : string) :
  captains w !! c = Some doc -> now - 5 * 60 * 1000 <= lastSeen doc ->
  socketId doc = Some s -> s <> "" ->
  exists sockets, on_new_ride (Some userId) now w = NewRideTo sockets
                  /\ s ∈ sockets.
Proof.
  intros Hc Hl Hs Hne. unfold on_new_ride. cbv zeta.
  assert (Hin : (c, doc) ∈ active_captains now w)
    by (apply active_captains_elem; auto).
  destruct (Nat.eqb_spec (length (active_captains now w)) 0) as [E | E].
  - apply nil_length_inv in E. rewrite E in Hin. inversion Hin.
  - eexists. split; [reflexivity |].
    apply list_elem_of_omap. exists (c, doc).
    split; [exact Hin | apply socket_of_Some; auto].
Qed.

(** X13.  The ['new:ride'] handler offers a ride to exactly the sockets
    (those with a truthy id) of the captains seen within the last five
    minutes, available or not; it answers
    the rider that no driver is available exactly when no captain at all
    was seen within that time. *)
Theorem new_ride_recipients (w : World) (now : Z) (userId : N) :
  (forall s : string,
      (exists sockets, on_new_ride (Some userId) now w = NewRideTo sockets
                       /\ s ∈ sockets)
      <-> exists (c : N) (doc : CaptainDoc),
            captains w !! c = Some doc
            /\ now - 5 * 60 * 1000 <= lastSeen doc
            /\ socketId doc = Some s /\ s <> "")
  /\ (on_new_ride (Some userId) now w
      = ErrorToUser userId
          "No drivers are currently available. Please try again later."
      <-> forall (c : N) (doc : CaptainDoc),
            captains w !! c = Some doc -> lastSeen doc < now - 5 * 60 * 1000).
Proof.
  split.
  { intros s. split.
    - unfold on_new_ride. cbv zeta.
      destruct (Nat.eqb (length (active_captains now w)) 0);
        intros (sockets & H & Hs); [discriminate |].
      injection H as <-.
      apply list_elem_of_omap in Hs as ([c doc] & Hin & Hsock).
      apply active_captains_elem in Hin as [Hc Hl].
      apply socket_of_Some in Hsock as [Hsock Hne].
      exists c, doc. auto.
    - intros (c & doc & Hc & Hl & Hs & Hne).
      eapply on_new_ride_offers; eauto. }
  unfold on_new_ride. cbv zeta.
  destruct (Nat.eqb_spec (length (active_captains now w)) 0) as [E | E].
  - apply nil_length_inv in E.
    split; [| reflexivity]. intros _ c doc Hc.
    destruct (Z.lt_ge_cases (lastSeen doc) (now - 5 * 60 * 1000)) as [? | Hl];
      [assumption |].
    assert (Hin : (c, doc) ∈ active_captains now w)
      by (apply active_captains_elem; auto).
    rewrite E in Hin. inversion Hin.
  - split; [discriminate |]. intros H. exfalso. apply E.
    destruct (active_captains now w) as [| [c doc] l] eqn:E'; [reflexivity |].
    assert (Hin : (c, doc) ∈ active_captains now w) by (rewrite E'; left).
    apply active_captains_elem in Hin as [Hc Hl].
    specialize (H c doc Hc). lia.
Qed.



End LifecycleProps.

Module FareOrder.
Import Fare FareFacts.
Local Open Scope Z_scope.

Lemma Math_round_le (x y : Q) : (x <= y)%Q -> Math_round x <= Math_round y.
Proof.
  intros H. unfold Math_round. apply Qfloor_resp_le.
  apply Qplus_le_compat; [exact H | apply Qle_refl].
Qed.

Lemma Math_round_eq (x y : Q) : (x == y)%Q -> Math_round x = Math_round y.
Proof. intros H. unfold Math_round. apply Qfloor_comp. rewrite H. reflexivity. Qed.

Lemma getFare_limits_le (t : VehicleType) (a b : Z) :
  a <= b -> getFare_limits t a <= getFare_limits t b.
Proof.
  intros H. unfold getFare_limits. cbv zeta. rewrite !Math_round_inject_div10.
  apply Z.mul_le_mono_nonneg_r; [lia |].
  apply Z.div_le_mono; lia.
Qed.

Lemma rates_positive (t : VehicleType) :
  (0 < perKmRate t)%Q /\ (0 < perMinuteRate t)%Q /\ (0 < inject_Z (baseFare t))%Q.
Proof. destruct t; repeat split. Qed.

Lemma surge_bounds (h : Z) : (1 <= surge h)%Q /\ (surge h <= 3 # 2)%Q.
Proof.
  unfold surge.
  destruct ((7 <=? h) && (h <=? 9) || (17 <=? h) && (h <=? 19));
    [split; discriminate |].
  destruct ((22 <=? h) || (h <=? 5)); split; discriminate.
Qed.

(** The sum the formula multiplies by the surge factor. *)
Lemma sum_le (t : VehicleType) (km1 km2 min1 min2 : Q) :
  (km1 <= km2)%Q -> (min1 <= min2)%Q ->
  (inject_Z (baseFare t) + km1 * perKmRate t + min1 * perMinuteRate t
   <= inject_Z (baseFare t) + km2 * perKmRate t + min2 * perMinuteRate t)%Q.
Proof.
  intros Hk Hm. destruct (rates_positive t) as (Hp & Hq & _).
  apply Qplus_le_compat; [apply Qplus_le_compat; [apply Qle_refl |] |];
    apply Qmult_le_compat_r; auto using Qlt_le_weak.
Qed.

Lemma div_le (x y : Q) (k : Q) : (0 < k)%Q -> (x <= y)%Q -> (x / k <= y / k)%Q.
Proof.
  intros Hk H. unfold Qdiv. apply Qmult_le_compat_r; [exact H |].
  apply Qlt_le_weak, Qinv_lt_0_compat, Hk.
Qed.

Lemma Math_max_le (x y m : Q) : (x <= y)%Q -> (Math_max x m <= Math_max y m)%Q.
Proof.
  intros H. unfold Math_max.
  destruct (Qle_bool x m) eqn:Ex; destruct (Qle_bool y m) eqn:Ey.
  - apply Qle_refl.
  - destruct (Qlt_le_dec m y) as [Hl | Hl]; [apply Qlt_le_weak, Hl |].
    apply Qle_bool_iff in Hl. congruence.
  - apply Qle_bool_iff in Ey.
    apply Qle_trans with y; assumption.
  - exact H.
Qed.

(** X15.  A longer or slower trip never costs less: at a fixed hour and for
    every class, the quote of [getFare] and the amount [createRide] stores
    are monotone in the distance and in the duration. *)
Theorem fares_monotone (t : VehicleType) (d1 d2 s1 s2 : Q) (currentHour : Z) :
  (d1 <= d2)%Q -> (s1 <= s2)%Q ->
  data (getFare d1 s1 currentHour) t <= data (getFare d2 s2 currentHour) t
  /\ createRide_finalFare t d1 s1 currentHour
     <= createRide_finalFare t d2 s2 currentHour.
Proof.
  intros Hd Hs. destruct (surge_bounds currentHour) as [H1 _].
  assert (H0 : (0 <= surge currentHour)%Q)
    by (apply Qle_trans with 1%Q; [discriminate | exact H1]).
  split.
  - cbn [data getFare]. apply getFare_limits_le, Math_round_le.
    apply Qmult_le_compat_r; [| exact H0].
    apply sum_le; apply div_le; auto; reflexivity.
  - unfold createRide_finalFare. cbv zeta.
    apply Z.min_le_compat_r, Z.max_le_compat_r.
    unfold createRide_formula. cbv zeta. apply Math_round_le.
    apply Qmult_le_compat_r; [| exact H0].
    apply sum_le; apply Math_max_le; apply div_le; auto; reflexivity.
Qed.

Lemma fares_monotone_witness :
  data (getFare 3000 600 12) car <= data (getFare 5000 900 12) car.
Proof.
  apply (fares_monotone car 3000 5000 600 900 12); discriminate.
Defined.

Lemma Math_max_above (x m : Q) : (m <= x)%Q -> (Math_max x m == x)%Q.
Proof.
  intros H. unfold Math_max. destruct (Qle_bool x m) eqn:E; [| reflexivity].
  apply Qle_bool_iff in E. apply Qle_antisym; assumption.
Qed.

(** X16.  On a trip of at least 1 km and 5 minutes the two computations
    differ only in the last rounding: the quote of [getFare] is the amount
    [createRide] stores, rounded to the nearest ten (halves upward), so the
    two are never more than 5 apart. *)
Theorem quote_is_rounded_amount (t : VehicleType) (distance duration : Q)
    (currentHour : Z) :
  (1000 <= distance)%Q -> (300 <= duration)%Q ->
  let amount := createRide_finalFare t distance duration currentHour in
  let quote := data (getFare distance duration currentHour) t in
  quote = (amount + 5) / 10 * 10
  /\ amount - 4 <= quote <= amount + 5.
Proof.
  intros Hd Hs amount quote.
  assert (E : quote = (amount + 5) / 10 * 10).
  { unfold quote, amount. cbn [data getFare]. unfold getFare_limits. cbv zeta.
    rewrite Math_round_inject_div10.
    unfold createRide_finalFare, createRide_formula. cbv zeta.
    rewrite (Math_round_eq
               ((inject_Z (baseFare t)
                 + Math_max (distance / 1000) 1 * perKmRate t
                 + Math_max (duration / 60) 5 * perMinuteRate t)
                * surge currentHour)
               ((inject_Z (baseFare t) + distance / 1000 * perKmRate t
                 + duration / 60 * perMinuteRate t) * surge currentHour)).
    - reflexivity.
    - rewrite !Math_max_above; [reflexivity | |].
      + apply Qle_shift_div_l; [reflexivity |].
        apply Qle_trans with 300%Q; [discriminate | exact Hs].
      + apply Qle_shift_div_l; [reflexivity |].
        apply Qle_trans with 1000%Q; [discriminate | exact Hd]. }
  split; [exact E |]. rewrite E.
  pose proof (Z.mod_pos_bound (amount + 5) 10 ltac:(lia)).
  pose proof (Z.div_mod (amount + 5) 10 ltac:(lia)). lia.
Qed.

Lemma quote_is_rounded_amount_witness :
  data (getFare 3000 600 12) car
  = (createRide_finalFare car 3000 600 12 + 5) / 10 * 10.
Proof.
  apply (quote_is_rounded_amount car 3000 600 12); discriminate.
Defined.

(** X17.  The surge factor never lowers a fare: for a trip of non-negative
    distance and duration, the quote of every hour lies between the quote of
    an hour without surge (noon) and the quote of a rush hour (8 o'clock). *)
Theorem surge_raises_quote (t : VehicleType) (distance duration : Q)
    (currentHour : Z) :
  (0 <= distance)%Q -> (0 <= duration)%Q ->
  data (getFare distance duration 12) t
  <= data (getFare distance duration currentHour) t
  <= data (getFare distance duration 8) t.
Proof.
  intros Hd Hs. destruct (surge_bounds currentHour) as [H1 H2].
  destruct (rates_positive t) as (Hp & Hq & Hb).
  assert (Hsum : (0 <= inject_Z (baseFare t) + distance / 1000 * perKmRate t
                       + duration / 60 * perMinuteRate t)%Q).
  { apply Qle_trans with (inject_Z (baseFare t) + 0 / 1000 * perKmRate t
                          + 0 / 60 * perMinuteRate t)%Q.
    - destruct t; discriminate.
    - apply sum_le; apply div_le; auto; reflexivity. }
  cbn [data getFare].
  split; apply getFare_limits_le, Math_round_le;
    rewrite !(Qmult_comm (inject_Z (baseFare t) + distance / 1000 * perKmRate t
                          + duration / 60 * perMinuteRate t));
    apply Qmult_le_compat_r; assumption.
Qed.

Lemma surge_raises_quote_witness :
  data (getFare 3000 600 12) car <= data (getFare 3000 600 23) car.
Proof.
  apply (surge_raises_quote car 3000 600 23); discriminate.
Defined.

End FareOrder.

Module OtpLengths.
Import Otp OtpProps.
Local Open Scope Z_scope.

Lemma log2_ge_digits (k : nat) (n : Z) :
  10 ^ Z.of_nat k <= n -> Z.of_nat k <= Z.log2 n.
Proof.
  intros H.
  assert (H2 : 2 ^ Z.of_nat k <= n).
  { apply Z.le_trans with (10 ^ Z.of_nat k); [| exact H].
    apply Z.pow_le_mono_l. lia. }
  rewrite <- (Z.log2_pow2 (Z.of_nat k)) by lia.
  apply Z.log2_le_mono, H2.
Qed.

(** The decimal print of a number of [k + 1] digits has [k + 1] characters,
    all of them digits. *)
Lemma toString_digits (k : nat) (n : Z) :
  10 ^ Z.of_nat k <= n < 10 ^ (Z.of_nat k + 1) ->
  String.length (toString n) = S k /\ allDigits (toString n) = true.
Proof.
  intros Hn. unfold toString.
  assert (0 < 10 ^ Z.of_nat k) by (apply Z.pow_pos_nonneg; lia).
  destruct (Z.ltb_spec n 0) as [? | _]; [lia |].
  pose proof (log2_ge_digits k n (proj1 Hn)) as Hlog.
  destruct (digits_spec k (S (Z.to_nat (Z.log2 n))) n "" Hn ltac:(lia)) as [Hl Hd].
  split; [rewrite Hl; simpl; lia | apply Hd; reflexivity].
Qed.

(** X18.  [generateOTP(length)] for the lengths it supports and for those it
    does not.  For a length from 1 to 14, whatever is drawn, the result is
    the decimal print of a number of exactly that many digits (no leading
    zero).  For a length of 15 or more, the range of [crypto.randomInt]
    exceeds 2^48 and the call always ends in [ApiError 500]; so does a
    length of 0 or less. *)
Theorem generateOTP_by_length (draw : N) (length : Z) :
  (1 <= length <= 14 ->
   exists n : Z,
     generateOTP draw length = Ok (toString n)
     /\ 10 ^ (length - 1) <= n < 10 ^ length
     /\ Z.of_nat (String.length (toString n)) = length
     /\ allDigits (toString n) = true)
  /\ (length <= 0 \/ 15 <= length ->
      generateOTP draw length = ApiError 500 "Error generating OTP").
Proof.
  split.
  - intros Hl. unfold generateOTP, Math_pow10.
    destruct (Z.ltb_spec (length - 1) 0) as [? | _]; [lia |].
    destruct (Z.ltb_spec length 0) as [? | _]; [lia |].
    assert (Hpow : 10 ^ length = 10 * 10 ^ (length - 1)).
    { rewrite <- Z.pow_succ_r by lia. f_equal. lia. }
    assert (Hlow : 0 < 10 ^ (length - 1)) by (apply Z.pow_pos_nonneg; lia).
    assert (Hhigh : 10 ^ (length - 1) <= 10 ^ 13) by (apply Z.pow_le_mono_r; lia).
    change (10 ^ 13) with 10000000000000 in Hhigh.
    unfold crypto_randomInt, isSafeInteger.
    replace (10 ^ length - 1 + 1) with (10 ^ length) by lia.
    change (2 ^ 53 - 1) with 9007199254740991.
    change (2 ^ 48) with 281474976710656.
    repeat match goal with
           | |- context [?a <=? ?b] => destruct (Z.leb_spec a b); [| lia]
           | |- context [?a <? ?b] => destruct (Z.ltb_spec a b); [| lia]
           end.
    cbn [andb].
    set (n := 10 ^ (length - 1)
              + Z.of_N draw mod (10 ^ length - 10 ^ (length - 1))).
    assert (Hn : 10 ^ (length - 1) <= n < 10 ^ length).
    { pose proof (Z.mod_pos_bound (Z.of_N draw)
                    (10 ^ length - 10 ^ (length - 1)) ltac:(lia)).
      unfold n. lia. }
    exists n. split; [reflexivity |]. split; [exact Hn |].
    destruct (toString_digits (Z.to_nat (length - 1)) n) as [Hlen Hd].
    + rewrite Z2Nat.id by lia. replace (length - 1 + 1) with length by lia.
      exact Hn.
    + split; [rewrite Hlen; lia | exact Hd].
  - intros [Hl | Hl]; unfold generateOTP, Math_pow10.
    + destruct (Z.ltb_spec (length - 1) 0) as [_ | ?]; [reflexivity | lia].
    + destruct (Z.ltb_spec (length - 1) 0) as [? | _]; [lia |].
      destruct (Z.ltb_spec length 0) as [? | _]; [lia |].
      assert (Hpow : 10 ^ length = 10 * 10 ^ (length - 1)).
      { rewrite <- Z.pow_succ_r by lia. f_equal. lia. }
      assert (Hbig : 10 ^ 14 <= 10 ^ (length - 1)) by (apply Z.pow_le_mono_r; lia).
      change (10 ^ 14) with 100000000000000 in Hbig.
      unfold crypto_randomInt.
      replace (10 ^ length - 1 + 1) with (10 ^ length) by lia.
      change (2 ^ 48) with 281474976710656.
      destruct (Z.ltb_spec (10 ^ length - 10 ^ (length - 1)) 281474976710656);
        [lia |].
      rewrite andb_false_r. reflexivity.
Qed.

Lemma generateOTP_by_length_witness :
  exists n : Z,
    generateOTP 123456 4 = Ok (toString n)
    /\ 10 ^ (4 - 1) <= n < 10 ^ 4
    /\ Z.of_nat (String.length (toString n)) = 4
    /\ allDigits (toString n) = true.
Proof.
  apply (generateOTP_by_length 123456 4). lia.
Defined.

End OtpLengths.

Module HelpersProps.
Import Otp Helpers.
Local Open Scope string_scope.
Local Open Scope Z_scope.

Lemma sanitizePhone_allDigits (phone : string) :
  allDigits (sanitizePhone phone) = true.
Proof.
  induction phone as [| c rest IH]; [reflexivity |]. simpl.
  destruct (isDigit c) eqn:E; [simpl; rewrite E, IH; reflexivity | exact IH].
Qed.

Lemma sanitizePhone_digits (s : string) :
  allDigits s = true -> sanitizePhone s = s.
Proof.
  induction s as [| c rest IH]; [reflexivity |]. simpl.
  destruct (isDigit c); [| discriminate]. simpl. intros H. rewrite IH; auto.
Qed.

(** A string of ten digits, cut at 3 and 6 and dressed by [formatPhone],
    still has these ten digits and no other. *)
Lemma formatted_ten (s : string) :
  String.length s = 10%nat -> allDigits s = true ->
  sanitizePhone ("(" ++ slice s 0 3 ++ ") " ++ slice s 3 6 ++ "-" ++ slice_from s 6)
  = s
  /\ String.length ("(" ++ slice s 0 3 ++ ") " ++ slice s 3 6 ++ "-"
                        ++ slice_from s 6) = 14%nat.
Proof.
  intros Hl Hd.
  do 10 (destruct s as [| ? s]; [discriminate Hl |]).
  destruct s; [| discriminate Hl].
  cbn -[isDigit] in Hd.
  repeat match type of Hd with
         | (isDigit ?c && _)%bool = true =>
             let E := fresh "E" in
             destruct (isDigit c) eqn:E; [cbn -[isDigit] in Hd | discriminate Hd]
         end.
  cbn -[isDigit]. cbv [String.append sanitizePhone].
  rewrite E, E0, E1, E2, E3, E4, E5, E6, E7, E8.
  split; reflexivity.
Qed.

(** X19.  Formatting a phone number changes none of its digits: for every
    string, [sanitizePhone] yields only digits and is idempotent, the
    formatted number sanitizes back to the same digits, is valid exactly
    when the original is, formatting twice is formatting once, and a number
    of ten digits is formatted on 14 characters. *)
Theorem formatPhone_keeps_digits (phone : string) :
  allDigits (sanitizePhone phone) = true
  /\ sanitizePhone (sanitizePhone phone) = sanitizePhone phone
  /\ sanitizePhone (formatPhone phone) = sanitizePhone phone
  /\ validatePhone (formatPhone phone) = validatePhone phone
  /\ formatPhone (formatPhone phone) = formatPhone phone
  /\ (String.length (sanitizePhone phone) = 10%nat ->
      String.length (formatPhone phone) = 14%nat).
Proof.
  pose proof (sanitizePhone_allDigits phone) as Hd.
  assert (Hs : sanitizePhone (formatPhone phone) = sanitizePhone phone).
  { unfold formatPhone. cbv zeta.
    destruct (Nat.eqb_spec (String.length (sanitizePhone phone)) 10) as [E | _].
    - apply formatted_ten; assumption.
    - apply sanitizePhone_digits, Hd. }
  split; [exact Hd |].
  split; [apply sanitizePhone_digits, Hd |].
  split; [exact Hs |].
  split; [unfold validatePhone; rewrite Hs; reflexivity |].
  split; [unfold formatPhone at 1 3; cbv zeta; rewrite Hs; reflexivity |].
  intros E. unfold formatPhone. cbv zeta. rewrite E. cbn [Nat.eqb].
  apply formatted_ten; assumption.
Qed.

Lemma minutes_rounded (n : Z) :
  Fare.Math_round (inject_Z n / inject_Z (1000 * 60)) = (2 * n + 60000) / 120000.
Proof.
  unfold Fare.Math_round.
  assert (E : (inject_Z n / inject_Z (1000 * 60) + (1 # 2)
               == (2 * n + 60000) # 120000)%Q).
  { unfold Qeq, Qdiv, Qplus, Qmult, Qinv, inject_Z; simpl. lia. }
  rewrite E. unfold Qfloor. reflexivity.
Qed.

(** X20.  [getTimeDifference] is the difference in whole minutes, off the
    exact difference by at most half a minute: the exact difference minus
    the result lies in [-30 s, +30 s), so a difference of exactly half a
    minute counts as one minute. *)
Theorem getTimeDifference_nearest_minute (startTime endTime : Z) :
  let minutes := getTimeDifference startTime endTime in
  - 30000 <= (endTime - startTime) - 60000 * minutes < 30000.
Proof.
  unfold getTimeDifference. cbv zeta. rewrite minutes_rounded.
  pose proof (Z.mod_pos_bound (2 * (endTime - startTime) + 60000) 120000 ltac:(lia)).
  pose proof (Z.div_mod (2 * (endTime - startTime) + 60000) 120000 ltac:(lia)).
  lia.
Qed.

End HelpersProps.

Module RateLimitProps.
Import RateLimit.
Local Open Scope Z_scope.

Lemma stored_set (requestCounters : gmap N UserRequests) (userId : N)
    (type : LimitType) (times : list Z) :
  stored (<[userId := set_times (default (mkUserRequests None None)
                                         (requestCounters !! userId)) type times]>
            requestCounters) userId type = times.
Proof. unfold stored. rewrite lookup_insert_eq. destruct type; reflexivity. Qed.

Lemma stored_set_other (requestCounters : gmap N UserRequests) (u u' : N)
    (type type' : LimitType) (times : list Z) :
  (u, type) <> (u', type') ->
  stored (<[u := set_times (default (mkUserRequests None None)
                                    (requestCounters !! u)) type times]>
            requestCounters) u' type'
  = stored requestCounters u' type'.
Proof.
  intros Hne. unfold stored.
  destruct (decide (u = u')) as [-> | Hu].
  - rewrite lookup_insert_eq.
    destruct type, type'; try reflexivity; congruence.
  - rewrite lookup_insert_ne by exact Hu. reflexivity.
Qed.

(** What one call does, in terms of the stored times. *)
Lemma checkRateLimit_stored (now : Z) (userId : N) (type : LimitType)
    (requestCounters : gmap N UserRequests) :
  let recent := List.filter (fun time => now - time <? windowMs type)
                            (stored requestCounters userId type) in
  if (maxRequests type <=? length recent)%nat then
    checkRateLimit now userId type requestCounters = (false, requestCounters)
  else
    fst (checkRateLimit now userId type requestCounters) = true
    /\ stored (snd (checkRateLimit now userId type requestCounters)) userId type
       = recent ++ [now]
    /\ (forall (u' : N) (type' : LimitType),
           (userId, type) <> (u', type') ->
           stored (snd (checkRateLimit now userId type requestCounters)) u' type'
           = stored requestCounters u' type').
Proof.
  unfold checkRateLimit. cbv zeta. fold (stored requestCounters userId type).
  destruct (Nat.leb (maxRequests type)
              (length (List.filter (fun time => now - time <? windowMs type)
                         (stored requestCounters userId type)))) eqn:E.
  - reflexivity.
  - cbn [fst snd]. split; [reflexivity |].
    split; [apply stored_set |].
    intros u' type' Hne. apply stored_set_other, Hne.
Qed.

Lemma key_dec (u u' : N) (t t' : LimitType) :
  {(u, t) = (u', t')} + {(u, t) <> (u', t')}.
Proof.
  destruct (decide (u = u')) as [-> | Hu]; [| right; congruence].
  destruct t, t'; first [left; reflexivity | right; congruence].
Qed.

Lemma length_filter_le {A} (f : A -> bool) (l : list A) :
  (length (List.filter f l) <= length l)%nat.
Proof.
  induction l as [| a l IH]; [reflexivity |]. simpl.
  destruct (f a); simpl; lia.
Qed.

(** X21.  The limiter never keeps more than [maxRequests] times for a user
    and a type: starting from counters that satisfy this bound (the empty
    map does), any sequence of calls, by any users, of any types and at any
    clock values, ends in counters that satisfy it. *)
Theorem serve_bounded (calls : list (Z * N * LimitType))
    (requestCounters : gmap N UserRequests) :
  (forall u t, (length (stored requestCounters u t) <= maxRequests t)%nat) ->
  forall u t, (length (stored (serve calls requestCounters) u t)
               <= maxRequests t)%nat.
Proof.
  revert requestCounters.
  induction calls as [| [[now userId] type] calls IH]; intros rc Hb; cbn [serve];
    [exact Hb |].
  apply IH. intros u t.
  pose proof (checkRateLimit_stored now userId type rc) as Hc. cbv zeta in Hc.
  destruct (Nat.leb (maxRequests type)
              (length (List.filter (fun time => now - time <? windowMs type)
                         (stored rc userId type)))) eqn:E.
  - rewrite Hc. apply Hb.
  - destruct Hc as (_ & Hs & Ho).
    destruct (key_dec userId u type t) as [[= <- <-] | Hne].
    + rewrite Hs, length_app. cbn. apply Nat.leb_gt in E. lia.
    + rewrite (Ho u t Hne). apply Hb.
Qed.

Lemma serve_bounded_witness :
  Nat.le
    (length (stored (serve [(0, 7%N, locationUpdates); (5, 7%N, locationUpdates)] ∅)
               7 locationUpdates))
    (maxRequests locationUpdates).
Proof.
  apply (serve_bounded [(0, 7%N, locationUpdates); (5, 7%N, locationUpdates)] ∅).
  intros u t. unfold stored. rewrite lookup_empty. destruct t; cbn; lia.
Defined.

Lemma filter_filter_later (W now now' : Z) (l : list Z) :
  now <= now' ->
  List.filter (fun a => now' - a <? W) (List.filter (fun a => now - a <? W) l)
  = List.filter (fun a => now' - a <? W) l.
Proof.
  intros H. induction l as [| a l IH]; [reflexivity |]. simpl.
  destruct (Z.ltb_spec (now - a) W) as [Ha | Ha]; simpl.
  - rewrite IH. reflexivity.
  - destruct (Z.ltb_spec (now' - a) W) as [Hb | Hb]; [lia | exact IH].
Qed.

Lemma within_limit_snoc (type : LimitType) (admitted : list Z) (now : Z) :
  within_limit type admitted ->
  (length (List.filter (fun a => (now - a <? windowMs type)%Z) admitted)
   < maxRequests type)%nat ->
  within_limit type (admitted ++ [now]).
Proof.
  intros Hw Hn pre post t E.
  destruct post as [| p post].
  - apply app_inj_tail in E as [-> ->]. exact Hn.
  - destruct (@exists_last _ (p :: post) ltac:(discriminate)) as (post' & z & Ep).
    rewrite Ep in E.
    change (pre ++ t :: post' ++ [z]) with (pre ++ (t :: post') ++ [z]) in E.
    rewrite app_assoc in E. apply app_inj_tail in E as [E' _].
    exact (Hw pre post' t E').
Qed.

Lemma allowed_within_limit (times : list Z) (userId : N) (type : LimitType) :
  forall (requestCounters : gmap N UserRequests) (admitted : list Z) (lo : Z),
    Sorted.StronglySorted Z.le times ->
    Forall (Z.le lo) times ->
    tracks (windowMs type) lo (stored requestCounters userId type) admitted ->
    within_limit type admitted ->
    within_limit type (admitted ++ allowed times userId type requestCounters).
Proof.
  induction times as [| now times IH]; intros rc admitted lo Hsorted Hlo Ht Hw;
    cbn [allowed].
  - rewrite app_nil_r. exact Hw.
  - apply Sorted.StronglySorted_inv in Hsorted as [Hsorted Hnext].
    apply Forall_cons_iff in Hlo as [Hnow _].
    pose proof (checkRateLimit_stored now userId type rc) as Hc. cbv zeta in Hc.
    destruct (checkRateLimit now userId type rc) as [ok rc'] eqn:Ecall.
    destruct (Nat.leb (maxRequests type)
                (length (List.filter (fun time => now - time <? windowMs type)
                           (stored rc userId type)))) eqn:E.
    + injection Hc as -> ->.
      apply (IH rc admitted now); auto.
      intros now' Hn'. apply Ht. lia.
    + cbn [fst snd] in Hc. destruct Hc as (-> & Hs & _).
      change (now :: allowed times userId type rc')
        with ([now] ++ allowed times userId type rc').
      rewrite app_assoc.
      apply (IH rc' (admitted ++ [now]) now); auto.
      * intros now' Hn'. rewrite Hs, !List.filter_app.
        rewrite filter_filter_later by exact Hn'.
        rewrite (Ht now') by lia. reflexivity.
      * apply within_limit_snoc; [exact Hw |].
        rewrite <- (Ht now Hnow). apply Nat.leb_gt in E. exact E.
Qed.

(** X22.  The guarantee of the limiter.  When a user's requests of one type
    arrive at non-decreasing clock values and nothing is stored for them
    yet, each request that is let through has fewer than [maxRequests]
    requests let through less than [windowMs] before it: no window of that
    length ever holds more than [maxRequests] admitted requests. *)
Theorem checkRateLimit_guarantee (times : list Z) (userId : N) (type : LimitType)
    (requestCounters : gmap N UserRequests) :
  Sorted.StronglySorted Z.le times ->
  stored requestCounters userId type = [] ->
  within_limit type (allowed times userId type requestCounters).
Proof.
  intros Hsorted Hs.
  destruct times as [| now times]; [intros [| ? ?] ? ? E; discriminate E |].
  apply (allowed_within_limit (now :: times) userId type requestCounters [] now).
  - exact Hsorted.
  - apply Sorted.StronglySorted_inv in Hsorted as [_ Hnext].
    constructor; [lia | exact Hnext].
  - intros now' _. rewrite Hs. reflexivity.
  - intros [| ? ?] ? ? E; discriminate E.
Qed.

Lemma checkRateLimit_guarantee_witness :
  within_limit locationUpdates
    (allowed [0; 1; 2; 3; 4; 5; 6; 7; 8; 9; 10; 11] 7 locationUpdates ∅).
Proof.
  apply (checkRateLimit_guarantee [0; 1; 2; 3; 4; 5; 6; 7; 8; 9; 10; 11] 7
           locationUpdates ∅).
  - repeat (constructor; [| repeat (constructor; try lia)]). constructor.
  - reflexivity.
Defined.

End RateLimitProps.

Module GeocodeProps.
Import Geocode.
Local Open Scope string_scope.

Section Parse.
Variable Num : Type.
Variable parseFloat : string -> Num.

Lemma attempt_exhausted (replies : nat -> GeoReply) (cacheKey : string)
    (remaining : nat) :
  forall (i : nat) (cache : gmap string (CacheEntry Num)),
    (forall j, (i <= j < i + remaining)%nat -> usable (replies j) = None) ->
    attempt Num replies cacheKey i remaining cache
    = (None, cache, (i + remaining)%nat).
Proof.
  induction remaining as [| remaining IH]; intros i cache Hnone; cbn [attempt].
  - rewrite Nat.add_0_r. reflexivity.
  - pose proof (Hnone i ltac:(lia)) as Hi.
    rewrite IH by (intros j Hj; apply Hnone; lia).
    replace (S i + remaining)%nat with (i + S remaining)%nat by lia.
    destruct (replies i) as [m | [[| first rest] |]]; try reflexivity.
    discriminate Hi.
Qed.

Lemma attempt_first (replies : nat -> GeoReply) (cacheKey : string)
    (data : list Item) (k : nat) :
  forall (i remaining : nat) (cache : gmap string (CacheEntry Num)),
    (i <= k < i + remaining)%nat ->
    (forall j, (i <= j < k)%nat -> usable (replies j) = None) ->
    usable (replies k) = Some data ->
    attempt Num replies cacheKey i remaining cache
    = (Some (ProviderData Num data),
       <[cacheKey := ProviderData Num data]> cache, S k).
Proof.
  intros i remaining. revert i.
  induction remaining as [| remaining IH]; intros i cache Hk Hnone Hdata;
    [lia |]. cbn [attempt].
  destruct (Nat.eq_dec i k) as [-> | Hne].
  - destruct (replies k) as [m | [[| first rest] |]]; try discriminate Hdata.
    injection Hdata as <-. reflexivity.
  - pose proof (Hnone i ltac:(lia)) as Hi.
    rewrite (IH (S i) cache) by (try lia; try assumption; intros j Hj; apply Hnone; lia).
    destruct (replies i) as [m | [[| first rest] |]]; try reflexivity.
    discriminate Hi.
Qed.

(** X23.  [makeGeocodingRequest] on an address that is not cached sends
    requests until one is answered with a non-empty array: it returns and
    caches the data of the first such answer and sends nothing after it; if
    none of the [retries] attempts is answered so, it returns [null] after
    exactly [retries] requests and caches nothing.  An address that is
    cached is answered from the cache without any request, so a second call
    after a success costs no request. *)
Theorem makeGeocodingRequest_first_answer (replies replies' : nat -> GeoReply)
    (address : string) (retries : nat) (geocodeCache : gmap string (CacheEntry Num)) :
  geocodeCache !! ("geocode:" ++ address) = None ->
  (forall (k : nat) (data : list Item),
      (k < retries)%nat ->
      (forall j, (j < k)%nat -> usable (replies j) = None) ->
      usable (replies k) = Some data ->
      makeGeocodingRequest Num replies address retries geocodeCache
      = (Some (ProviderData Num data),
         <[("geocode:" ++ address) := ProviderData Num data]> geocodeCache, S k)
      /\ makeGeocodingRequest Num replies' address retries
           (<[("geocode:" ++ address) := ProviderData Num data]> geocodeCache)
         = (Some (ProviderData Num data),
            <[("geocode:" ++ address) := ProviderData Num data]> geocodeCache, O))
  /\ ((forall j, (j < retries)%nat -> usable (replies j) = None) ->
      makeGeocodingRequest Num replies address retries geocodeCache
      = (None, geocodeCache, retries)).
Proof.
  intros Hmiss. split.
  - intros k data Hk Hnone Hdata. split.
    + unfold makeGeocodingRequest. cbv zeta. rewrite Hmiss.
      apply attempt_first; [lia | intros j Hj; apply Hnone; lia | exact Hdata].
    + unfold makeGeocodingRequest. cbv zeta. rewrite lookup_insert_eq.
      reflexivity.
  - intros Hnone. unfold makeGeocodingRequest. cbv zeta. rewrite Hmiss.
    rewrite attempt_exhausted by (intros j Hj; apply Hnone; lia).
    reflexivity.
Qed.

Lemma place_Forall (P : Suggestion Num -> Prop) (x : Suggestion Num)
    (l : list (Suggestion Num)) :
  P x -> Forall P l -> Forall P (place Num x l).
Proof.
  intros Hx Hl. induction Hl as [| y rest Hy Hrest IH]; cbn [place].
  - constructor; [exact Hx | constructor].
  - destruct (Qle_bool (s_importance y) (s_importance x));
      repeat constructor; assumption.
Qed.

Lemma place_falling (x : Suggestion Num) (l : list (Suggestion Num)) :
  falling Num l -> falling Num (place Num x l).
Proof.
  unfold falling. intros Hl. induction Hl as [| y rest Hrest IH Hy]; cbn [place].
  - repeat constructor.
  - destruct (Qle_bool (s_importance y) (s_importance x)) eqn:E.
    + apply Qle_bool_iff in E. constructor; [constructor; assumption |].
      constructor; [exact E |].
      eapply Forall_impl; [exact Hy |]. cbn. intros z Hz.
      apply Qle_trans with (s_importance y); assumption.
    + constructor; [exact IH |].
      apply place_Forall; [| exact Hy].
      destruct (Qlt_le_dec (s_importance x) (s_importance y)) as [Hlt | Hle].
      * apply Qlt_le_weak, Hlt.
      * apply Qle_bool_iff in Hle. congruence.
Qed.

Lemma place_perm (x : Suggestion Num) (l : list (Suggestion Num)) :
  Permutation (place Num x l) (x :: l).
Proof.
  induction l as [| y rest IH]; cbn [place]; [reflexivity |].
  destruct (Qle_bool (s_importance y) (s_importance x)); [reflexivity |].
  rewrite IH. apply perm_swap.
Qed.

Lemma sort_by_importance_sorts (l : list (Suggestion Num)) :
  falling Num (sort_by_importance Num l)
  /\ Permutation (sort_by_importance Num l) l.
Proof.
  unfold sort_by_importance. induction l as [| x l [IHs IHp]]; cbn [foldr].
  - split; [constructor | reflexivity].
  - split; [apply place_falling, IHs |].
    rewrite place_perm. constructor. exact IHp.
Qed.

(** X24.  [getAutoCompleteSuggestions].  An input shorter than three
    characters is answered with the empty list, with no request and no cache
    entry written.  On a cache miss a provider array comes back as
    suggestions in falling order of importance, one per item of the array,
    and this list is cached, so that the same question is then answered with
    the same list and no request; a failed request or a response without
    data is answered with the empty list and leaves the cache as it was. *)
Theorem getAutoCompleteSuggestions_answers (reply reply' : GeoReply)
    (input : string) (country : option string) (type : string)
    (geocodeCache : gmap string (CacheEntry Num)) :
  ((String.length input < 3)%nat ->
   getAutoCompleteSuggestions Num parseFloat reply input country type geocodeCache
   = (Suggestions Num [], geocodeCache, O))
  /\ ((3 <= String.length input)%nat ->
      geocodeCache !! suggestions_key input country type = None ->
      match reply with
      | GeoReplied (Some data) =>
          exists suggestions,
            getAutoCompleteSuggestions Num parseFloat reply input country type
              geocodeCache
            = (Suggestions Num suggestions,
               <[suggestions_key input country type := Suggestions Num suggestions]>
                 geocodeCache, 1%nat)
            /\ falling Num suggestions
            /\ Permutation suggestions (to_suggestion Num parseFloat <$> data)
            /\ getAutoCompleteSuggestions Num parseFloat reply' input country type
                 (<[suggestions_key input country type := Suggestions Num suggestions]>
                    geocodeCache)
               = (Suggestions Num suggestions,
                  <[suggestions_key input country type := Suggestions Num suggestions]>
                    geocodeCache, O)
      | _ =>
          getAutoCompleteSuggestions Num parseFloat reply input country type
            geocodeCache
          = (Suggestions Num [], geocodeCache, 1%nat)
      end).
Proof.
  split.
  - intros Hshort. unfold getAutoCompleteSuggestions.
    destruct (Nat.ltb_spec (String.length input) 3) as [_ | ?]; [| lia].
    rewrite orb_true_r. reflexivity.
  - intros Hlong Hmiss.
    assert (Hgate : String.eqb input "" || (String.length input <? 3)%nat = false).
    { destruct (String.eqb_spec input "") as [-> | _]; [cbn in Hlong; lia |].
      destruct (Nat.ltb_spec (String.length input) 3) as [? | _]; [lia |].
      reflexivity. }
    unfold getAutoCompleteSuggestions. rewrite Hgate. cbv zeta. rewrite Hmiss.
    destruct reply as [m | [data |]]; try reflexivity.
    destruct (sort_by_importance_sorts (to_suggestion Num parseFloat <$> data))
      as [Hs Hp].
    eexists. split; [reflexivity |]. split; [exact Hs |]. split; [exact Hp |].
    rewrite lookup_insert_eq. reflexivity.
Qed.

End Parse.

Lemma makeGeocodingRequest_first_answer_witness :
  makeGeocodingRequest nat (fun _ => GeoFailed "timeout") "Main Street" 3 ∅
  = (None, ∅, 3%nat).
Proof.
  apply (makeGeocodingRequest_first_answer nat (fun _ => GeoFailed "timeout")
           (fun _ => GeoFailed "timeout") "Main Street" 3 ∅).
  - apply lookup_empty.
  - intros j _. reflexivity.
Defined.

Lemma getAutoCompleteSuggestions_answers_witness :
  getAutoCompleteSuggestions nat String.length (GeoFailed "timeout") "Ma" None "all" ∅
  = (Suggestions nat [], ∅, O).
Proof.
  apply (getAutoCompleteSuggestions_answers nat String.length (GeoFailed "timeout")
           (GeoFailed "timeout") "Ma" None "all" ∅).
  cbn. lia.
Defined.

End GeocodeProps.

Module TrafficProps.
Import Traffic.
Local Open Scope Z_scope.

Lemma multiplier_is_surge (hour : Z) : multiplier_of_hour hour = Fare.surge hour.
Proof.
  unfold multiplier_of_hour, Fare.surge. cbv zeta.
  destruct ((7 <=? hour) && (hour <=? 9) || (17 <=? hour) && (hour <=? 19));
    [reflexivity |].
  destruct ((22 <=? hour) || (hour <=? 5)); reflexivity.
Qed.

Lemma multiplier_cases (hour : Z) :
  multiplier_of_hour hour = 1%Q \/ multiplier_of_hour hour = (3 # 2)%Q
  \/ multiplier_of_hour hour = (13 # 10)%Q.
Proof.
  unfold multiplier_of_hour. cbv zeta.
  destruct ((7 <=? hour) && (hour <=? 9) || (17 <=? hour) && (hour <=? 19));
    [right; left; reflexivity |].
  destruct ((22 <=? hour) || (hour <=? 5)); [right; right | left]; reflexivity.
Qed.

Section Keys.
Variable join : list Q -> string.

Lemma getTrafficMultiplier_coherent (coordinates : list Q) (hour : Z)
    (trafficCache : gmap string Q) :
  coherent join coordinates hour trafficCache ->
  fst (getTrafficMultiplier join (Some coordinates) hour trafficCache)
  = multiplier_of_hour hour
  /\ coherent join coordinates hour
       (snd (getTrafficMultiplier join (Some coordinates) hour trafficCache)).
Proof.
  unfold coherent, getTrafficMultiplier. cbv zeta. intros H.
  destruct (trafficCache !! traffic_key join coordinates hour) as [m |] eqn:E.
  - subst m.
    destruct (multiplier_cases hour) as [Hm | [Hm | Hm]]; rewrite Hm in *;
      (destruct (negb (Qeq_bool _ 0)) eqn:Hn; [| vm_compute in Hn; discriminate Hn]);
      cbn [fst snd]; rewrite E; split; reflexivity.
  - cbn. rewrite lookup_insert_eq. split; reflexivity.
Qed.

(** X25.  [getTrafficMultiplier] and its cache.  When the cache holds, for
    these coordinates and this hour, nothing or the multiplier of the hour,
    the function returns the surge factor the fares apply at that hour (1,
    1.5 or 1.3) and leaves it in the cache, so that a second call returns
    the same and writes nothing.  Without coordinates it returns 1 and
    writes nothing.  Whatever the cache holds, what it returns is never 0:
    a cached 0 is falsy and computed anew. *)
Theorem getTrafficMultiplier_cached_surge (coordinates : list Q) (hour : Z)
    (trafficCache : gmap string Q) :
  coherent join coordinates hour trafficCache ->
  let answer := getTrafficMultiplier join (Some coordinates) hour trafficCache in
  fst answer = Fare.surge hour
  /\ (fst answer = 1%Q \/ fst answer = (3 # 2)%Q \/ fst answer = (13 # 10)%Q)
  /\ snd answer !! traffic_key join coordinates hour = Some (Fare.surge hour)
  /\ getTrafficMultiplier join (Some coordinates) hour (snd answer) = answer
  /\ getTrafficMultiplier join None hour trafficCache = (1%Q, trafficCache)
  /\ (forall (coordinates' : option (list Q)) (cache : gmap string Q),
         Qeq_bool (fst (getTrafficMultiplier join coordinates' hour cache)) 0
         = false).
Proof.
  intros Hc answer.
  assert (Hnz : Qeq_bool (multiplier_of_hour hour) 0 = false)
    by (destruct (multiplier_cases hour) as [-> | [-> | ->]]; reflexivity).
  assert (Hans : answer
                 = (multiplier_of_hour hour,
                    <[traffic_key join coordinates hour := multiplier_of_hour hour]>
                      trafficCache)).
  { unfold answer, getTrafficMultiplier. unfold coherent in Hc.
    destruct (trafficCache !! traffic_key join coordinates hour) as [m |] eqn:E;
      [| reflexivity].
    subst m. rewrite Hnz. cbn. f_equal. symmetry. apply insert_id, E. }
  rewrite Hans. cbn [fst snd]. rewrite <- (multiplier_is_surge hour).
  split; [reflexivity |]. split; [apply multiplier_cases |].
  split; [apply lookup_insert_eq |].
  split; [| split; [reflexivity |]].
  - unfold getTrafficMultiplier. rewrite lookup_insert_eq, Hnz. reflexivity.
  - intros coordinates' cache. unfold getTrafficMultiplier.
    destruct coordinates' as [cs |]; [| reflexivity].
    destruct (cache !! traffic_key join cs hour) as [m |]; [| exact Hnz].
    destruct (Qeq_bool m 0) eqn:Em; cbn; [exact Hnz | exact Em].
Qed.

End Keys.

Lemma getTrafficMultiplier_cached_surge_witness :
  getTrafficMultiplier (fun _ => "") (Some [0%Q; 0%Q]) 8 ∅
  = (3 # 2, {[ "traffic::8" := 3 # 2 ]})%Q.
Proof.
  destruct (getTrafficMultiplier_cached_surge (fun _ => "") [0%Q; 0%Q] 8 ∅)
    as (Hs & _).
  - unfold coherent. rewrite lookup_empty. exact I.
  - reflexivity.
Defined.

End TrafficProps.

Module HaversineProps.
Import Maps.
Local Open Scope R_scope.







End HaversineProps.

Module CreateRideProps.
Import CreateRide.
Local Open Scope nat_scope.

(** X28.  [createRide] gives up at the third exception of [getRouteDetails]:
    when its first three calls raise, it throws 'Failed to calculate route
    details after multiple attempts' after exactly three calls; when a call
    among the first three answers with a distance and a duration that are
    not zero, after exceptions only, the stored fare is computed from that
    answer and no further call is made. *)
Theorem createRide_three_attempts (fuel : nat) (answers : nat -> RouteCall)
    (vehicleType : Fare.VehicleType) (currentHour : Z) :
  3 <= fuel ->
  ((forall k, k < 3 -> answers k = RouteRaised) ->
   route_loop fuel answers 0 0 None = GaveUp 3
   /\ createRide_fare fuel answers vehicleType currentHour
      = Some (inl "Failed to calculate route details after multiple attempts"%string))
  /\ (forall (k : nat) (distance duration : Q),
         k < 3 -> (forall j, j < k -> answers j = RouteRaised) ->
         answers k = RouteAnswered distance duration ->
         truthy distance && truthy duration = true ->
         createRide_fare fuel answers vehicleType currentHour
         = Some (inr (Fare.createRide_finalFare vehicleType distance duration
                        currentHour, S k))).
Proof.
  intros Hfuel. split.
  - intros Hr. unfold createRide_fare.
    do 3 (destruct fuel as [| fuel]; [lia |]). cbn.
    rewrite !Hr by lia. cbn. split; reflexivity.
  - intros k distance duration Hk Hr Ha Ht. unfold createRide_fare.
    do 3 (destruct fuel as [| fuel]; [lia |]). cbn.
    destruct k as [| [| [| k]]]; [| | | lia].
    + rewrite Ha, Ht. reflexivity.
    + rewrite (Hr 0) by lia. cbn. rewrite Ha, Ht. reflexivity.
    + rewrite (Hr 0), (Hr 1) by lia. cbn. rewrite Ha, Ht. reflexivity.
Qed.

Lemma createRide_three_attempts_witness :
  createRide_fare 5 (fun _ => RouteRaised) Fare.car 12
  = Some (inl "Failed to calculate route details after multiple attempts"%string).
Proof.
  destruct (createRide_three_attempts 5 (fun _ => RouteRaised) Fare.car 12)
    as [Hgive _]; [lia |].
  apply Hgive. reflexivity.
Defined.

Lemma route_loop_spins (answers : nat -> RouteCall) (fuel : nat) :
  (forall k, unusable (answers k)) ->
  forall (calls retryCount : nat) (routeDetails : option (Q * Q)),
    retryCount < maxRetries ->
    route_loop fuel answers calls retryCount routeDetails = Looping.
Proof.
  intros Hu. induction fuel as [| fuel IH]; intros calls retryCount rd Hr;
    cbn [route_loop]; [reflexivity |].
  destruct (Nat.ltb_spec retryCount maxRetries) as [_ | ?]; [| lia].
  pose proof (Hu calls) as Hc.
  destruct (answers calls) as [| distance duration]; [destruct Hc |].
  cbn in Hc. rewrite Hc. apply IH, Hr.
Qed.

(** X29.  The loop of [createRide] has no exit for an answer it cannot use:
    if every call of [getRouteDetails] answers with a distance or a duration
    of zero (a call that answers raises nothing, so [retryCount] stays as
    it is), then no number of iterations ends the loop: [createRide] neither
    returns nor throws. *)
Theorem createRide_never_ends_on_zero_route (answers : nat -> RouteCall)
    (vehicleType : Fare.VehicleType) (currentHour : Z) :
  (forall k, unusable (answers k)) ->
  forall fuel : nat, createRide_fare fuel answers vehicleType currentHour = None.
Proof.
  intros Hu fuel. unfold createRide_fare.
  rewrite (route_loop_spins answers fuel Hu 0 0 None); [reflexivity |].
  unfold maxRetries. lia.
Qed.

Lemma createRide_never_ends_on_zero_route_witness :
  createRide_fare 1000 (fun _ => RouteAnswered 0 0) Fare.car 12 = None.
Proof.
  apply (createRide_never_ends_on_zero_route (fun _ => RouteAnswered 0 0)
           Fare.car 12).
  intros k. reflexivity.
Defined.

End CreateRideProps.
